(** * VideoVault: durable capture, then reliable upload

    A shallow embedding of the recorder's persistence layer ([db.js]), of
    the upload pipeline ([cloudinary.js]) and of the two handlers of
    [App.jsx] that drive them (the recorder's [onstop] handler and
    [uploadVideo]), with the properties the specification states about
    them.

    Conventions.
    - JavaScript strings are [string]s: sequences of code units below 256.
    - Every asynchronous function is modelled as run to completion: the
      [await]s of one invocation are sequenced in program order and no other
      handler is interleaved between them.
    - What the environment decides (the clock, [navigator.onLine], the
      outcome of each XMLHttpRequest, storage faults) is read from oracles
      carried by the [World]; each read advances a cursor.
    - Every step that the specification talks about leaves an [event] in the
      trace an invocation returns, in execution order. *)

From Equations Require Import Equations.
From stdpp Require Import gmap strings list.
From Stdlib Require Import String Ascii NArith ZArith DecimalString DecimalN.

Open Scope string_scope.
Open Scope N_scope.

Set Warnings "-register-all".

(** ** JavaScript strings *)

(** [s.startsWith(pat)] *)
Definition startsWith (s pat : string) : bool := String.prefix pat s.

(** [s.includes(pat)]: [pat] occurs in [s] at some offset. *)
Fixpoint includes (s pat : string) : bool :=
  String.prefix pat s ||
  match s with
  | EmptyString => false
  | String _ rest => includes rest pat
  end.

(** The lower-case mapping of one code unit below 256: A-Z, and the
    upper-case letters of Latin-1 (U+00C0 to U+00DE without the
    multiplication sign U+00D7), move up by 32. *)
Definition lower_unit (c : ascii) : ascii :=
  let n := N_of_ascii c in
  if ((65 <=? n) && (n <=? 90)) || ((192 <=? n) && (n <=? 222) && negb (n =? 215))
  then ascii_of_N (n + 32)
  else c.

(** [s.toLowerCase()] *)
Fixpoint toLowerCase (s : string) : string :=
  match s with
  | EmptyString => EmptyString
  | String c rest => String (lower_unit c) (toLowerCase rest)
  end.

(** [list.join(sep)] on a list of strings. *)
Definition join (sep : string) (l : list string) : string := String.concat sep l.

(** [list.push(x)] *)
Definition push {A} (l : list A) (x : A) : list A := (l ++ [x])%list.

(** A non-negative integer in a template literal. *)
Definition decimal (n : N) : string := NilZero.string_of_uint (N.to_uint n).

(** ** Exceptions *)

Inductive ErrorKind := KError | KTypeError | KSyntaxError | KDOMException.

(** A thrown value: all of them are [Error] objects, of which the code
    reads [message] only. *)
Record exn := mkExn { kind : ErrorKind; message : string }.

(** [new Error(msg)] *)
Definition new_Error (msg : string) : exn := mkExn KError msg.

(** Reading property [prop] of [null] or [undefined] (V8's wording). *)
Definition nullish_read (what prop : string) : exn :=
  mkExn KTypeError
        ("Cannot read properties of " +:+ what +:+ " (reading '" +:+ prop +:+ "')").

(** A pure computation that may throw: [inl] is the thrown value. *)
#[global] Instance completion_ret : MRet (sum exn) := fun A a => inr a.
#[global] Instance completion_bind : MBind (sum exn) := fun A B k r =>
  match r with
  | inl e => inl e
  | inr a => k a
  end.

#[global] Instance ErrorKind_eq_dec : EqDecision ErrorKind.
Proof. solve_decision. Defined.
#[global] Instance exn_eq_dec : EqDecision exn.
Proof. solve_decision. Defined.

(** ** JSON values, as [JSON.parse] returns them *)

(** Numbers are restricted to integers; an object is the finite map of
    its own properties. *)
Inductive json :=
| JNull
| JBool (b : bool)
| JNum (n : Z)
| JStr (s : string)
| JArr (items : list json)
| JObj (props : gmap string json).

(** A JavaScript value read out of a response: [None] is [undefined]. *)
Definition jsval := option json.

(** [v.key] for a key that no prototype defines (the code reads [error],
    [message], [secure_url] and [public_id]): a [TypeError] on [null], the
    own property on an object, [undefined] on everything else. *)
Definition getProp (v : json) (key : string) : exn + jsval :=
  match v with
  | JNull => inl (nullish_read "null" key)
  | JObj props => inr (props !! key)
  | _ => inr None
  end.

(** [v?.key] *)
Definition getPropOpt (v : jsval) (key : string) : exn + jsval :=
  match v with
  | None | Some JNull => inr None
  | Some o => getProp o key
  end.

(** Truthiness. *)
Definition truthy (v : jsval) : bool :=
  match v with
  | None | Some JNull => false
  | Some (JBool b) => b
  | Some (JNum n) => negb (n =? 0)%Z
  | Some (JStr s) => negb (String.eqb s "")
  | Some (JArr _) | Some (JObj _) => true
  end.

(** [ToString] of a JSON value. *)
Fixpoint json_toString (v : json) : string :=
  match v with
  | JNull => "null"
  | JBool true => "true"
  | JBool false => "false"
  | JNum n => NilZero.string_of_int (Z.to_int n)
  | JStr s => s
  | JArr items =>
      join "," (List.map (fun x => match x with
                                   | JNull => ""
                                   | _ => json_toString x
                                   end) items)
  | JObj _ => "[object Object]"
  end.

(** [ToString] of a value that may be [undefined]. *)
Definition toString (v : jsval) : string :=
  match v with
  | None => "undefined"
  | Some j => json_toString j
  end.

(** ** Blobs and clips *)

(** A [Blob], by the two properties the code reads: [size] and [type]. *)
Record Blob := mkBlob { blob_size : N; blob_type : string }.

(** What a caller may pass where a Blob is expected. *)
Inductive payload :=
| Null
| Undefined
| BlobRef (b : Blob).

(** A record of the object store [videos]. *)
Record Clip := mkClip {
  id : string;
  blob : Blob;
  createdAt : N;
  uploaded : bool
}.

#[global] Instance Blob_eq_dec : EqDecision Blob.
Proof. solve_decision. Defined.
#[global] Instance Clip_eq_dec : EqDecision Clip.
Proof. solve_decision. Defined.

(** ** The environment *)

(** [import.meta.env]: a variable that is not defined reads [undefined]. *)
Record Config := mkConfig {
  VITE_CLOUDINARY_CLOUD_NAME : option string;
  VITE_CLOUDINARY_UPLOAD_PRESET : option string
}.

(** [!v] for a configuration value: [undefined] and the empty string are
    falsy. *)
Definition unset (v : option string) : bool :=
  match v with
  | None => true
  | Some s => String.eqb s ""
  end.

(** A configuration value inside a template literal or given to
    [FormData.append]. *)
Definition env_text (v : option string) : string := default "undefined" v.

(** [JSON.parse(xhr.responseText)]: a [SyntaxError] with the engine's
    message, or the value. *)
Inductive ResponseBody :=
| NotJson (syntaxError : string)
| Json (value : json).

(** How one XMLHttpRequest ends: exactly one of the four listeners of
    [uploadWithProgress] fires. *)
Inductive XhrOutcome :=
| XhrLoad (status : N) (body : ResponseBody)
| XhrError
| XhrTimeout
| XhrAbort.

(** What the environment decides, by the number of earlier reads. *)
Record Env := mkEnv {
  config : Config;
  Date_now : nat -> N;
  navigator_onLine : nat -> bool;
  xhr_outcome : nat -> XhrOutcome;
  idb_fault : nat -> bool
}.

(** The object store [videos] (key path [id]) and the cursors of the
    oracles. *)
Record World := mkWorld {
  env : Env;
  store : gmap string Clip;
  clock_reads : nat;
  onLine_reads : nat;
  xhr_sends : nat;
  idb_requests : nat
}.

(** Every record sits under its own [id]: what the key path enforces. *)
Definition keyed (s : gmap string Clip) : Prop :=
  forall k c, s !! k = Some c -> id c = k.

(** ** Events *)

Record FormData := mkFormData {
  file : payload;
  upload_preset : string;
  resource_type : string
}.

Inductive IdbRequest :=
| Put (video : Clip)
| Get (key : string)
| GetAll
| Delete (key : string).

Inductive event :=
(* IndexedDB: a request and whether it succeeded *)
| EvIdb (req : IdbRequest) (ok : bool)
(* cloudinary.js *)
| EvConfigCheck
| EvValidate (blob : payload)
| EvIsOnline (online : bool)
| EvXhrSend (url : string) (formData : FormData)
| EvConsoleLog (msg : string)
| EvSleep (ms : N)
(* App.jsx *)
| EvClearInterval (timer : N)
| EvSetRecordingTime (seconds : N)
| EvSetVideos (videos : list Clip)
| EvChunksReset
| EvTrackStop (track : string)
| EvSrcObjectCleared
| EvSetStreamNull
| EvSetUploadingId (v : option string)
| EvSetUploadProgress (key : string) (percent : N)
| EvAlert (msg : string)
| EvConsoleError (msg : string)
| EvSetTimeout (ms : N).

#[global] Instance payload_eq_dec : EqDecision payload.
Proof. solve_decision. Defined.
#[global] Instance FormData_eq_dec : EqDecision FormData.
Proof. solve_decision. Defined.
#[global] Instance IdbRequest_eq_dec : EqDecision IdbRequest.
Proof. solve_decision. Defined.
#[global] Instance event_eq_dec : EqDecision event.
Proof. solve_decision. Defined.

(** ** The monad of asynchronous functions

    A computation maps the world to the events it caused, its completion
    (a thrown exception or a value) and the world it leaves. *)

Record Outcome (A : Type) := mkOutcome {
  trace : list event;
  result : exn + A;
  final : World
}.
Arguments mkOutcome {A} _ _ _.
Arguments trace {A} _.
Arguments result {A} _.
Arguments final {A} _.

Definition M (A : Type) : Type := World -> Outcome A.

#[global] Instance M_ret : MRet M := fun A a w => mkOutcome [] (inr a) w.

(** The events of [o], after the events [t]. *)
Definition after_events {A} (t : list event) (o : Outcome A) : Outcome A :=
  match o with
  | mkOutcome t' r w => mkOutcome (t ++ t') r w
  end.

#[global] Instance M_bind : MBind M := fun A B k m w =>
  match m w with
  | mkOutcome t (inl e) w' => mkOutcome t (inl e) w'
  | mkOutcome t (inr a) w' => after_events t (k a w')
  end.

(** [throw e] *)
Definition throw {A} (e : exn) : M A := fun w => mkOutcome [] (inl e) w.

(** A pure step that may throw. *)
Definition lift {A} (r : exn + A) : M A := fun w => mkOutcome [] r w.

(** [if (c) throw e] *)
Definition throw_if (c : bool) (e : exn) : M unit :=
  if c then throw e else mret tt.

Definition emit (ev : event) : M unit := fun w => mkOutcome [ev] (inr tt) w.

(** [try { body } catch (error) { handler }] *)
Definition try_catch {A} (body : M A) (handler : exn -> M A) : M A := fun w =>
  match body w with
  | mkOutcome t (inl e) w' => after_events t (handler e w')
  | mkOutcome t (inr a) w' => mkOutcome t (inr a) w'
  end.

(** [try { body } finally { cleanup }], for a cleanup that does not
    throw: the completion of the body is kept. *)
Definition try_finally {A} (body : M A) (cleanup : M unit) : M A := fun w =>
  match body w with
  | mkOutcome t r w' =>
      match cleanup w' with
      | mkOutcome t' _ w'' => mkOutcome (t ++ t') r w''
      end
  end.

(** ** Reads of the environment *)

Definition with_clock_reads (n : nat) (w : World) : World :=
  mkWorld (env w) (store w) n (onLine_reads w) (xhr_sends w) (idb_requests w).
Definition with_onLine_reads (n : nat) (w : World) : World :=
  mkWorld (env w) (store w) (clock_reads w) n (xhr_sends w) (idb_requests w).
Definition with_xhr_sends (n : nat) (w : World) : World :=
  mkWorld (env w) (store w) (clock_reads w) (onLine_reads w) n (idb_requests w).
Definition with_idb_requests (n : nat) (w : World) : World :=
  mkWorld (env w) (store w) (clock_reads w) (onLine_reads w) (xhr_sends w) n.
Definition with_store (s : gmap string Clip) (w : World) : World :=
  mkWorld (env w) s (clock_reads w) (onLine_reads w) (xhr_sends w) (idb_requests w).

(** [Date.now()] *)
Definition now : M N := fun w =>
  mkOutcome [] (inr (Date_now (env w) (clock_reads w)))
            (with_clock_reads (S (clock_reads w)) w).

(** ** db.js *)

Definition storage_failure : exn :=
  mkExn KDOMException "The IndexedDB request failed".

(** One request to the object store: it fails when the environment says
    so, leaving the store as it was, and is applied otherwise. *)
Definition idb {A} (req : IdbRequest) (apply : gmap string Clip -> gmap string Clip)
    (answer : gmap string Clip -> A) : M A := fun w =>
  let w' := with_idb_requests (S (idb_requests w)) w in
  if idb_fault (env w) (idb_requests w)
  then mkOutcome [EvIdb req false] (inl storage_failure) w'
  else mkOutcome [EvIdb req true] (inr (answer (store w)))
                 (with_store (apply (store w)) w').

(** [db.put(STORE_NAME, video)]: inserts or replaces the record under
    [video.id]. *)
Definition db_put (video : Clip) : M unit :=
  idb (Put video) (fun s => <[id video := video]> s) (fun _ => tt).

(** [db.get(STORE_NAME, id)]: a copy of the record, or [undefined]. *)
Definition db_get (key : string) : M (option Clip) :=
  idb (Get key) (fun s => s) (fun s => s !! key).

(** [db.getAll(STORE_NAME)]: the records, in the order [map_to_list]
    lists them (the code looks records up by [id] and does not depend on the
    order). *)
Definition db_getAll : M (list Clip) :=
  idb GetAll (fun s => s) (fun s => (map_to_list s).*2).

(** [db.delete(STORE_NAME, id)] *)
Definition db_delete (key : string) : M unit :=
  idb (Delete key) (fun s => delete key s) (fun _ => tt).

Definition saveVideo (blob : Blob) : M string :=
  t ← now;
  let id := "video-" +:+ decimal t in
  createdAt ← now;
  let video := mkClip id blob createdAt false in
  db_put video;;
  mret id.

Definition getVideos : M (list Clip) := db_getAll.

Definition deleteVideo (id : string) : M unit := db_delete id.

(** [video.uploaded = value] *)
Definition set_uploaded (video : Clip) (value : bool) : Clip :=
  mkClip (id video) (blob video) (createdAt video) value.

Definition updateVideo (id : string) (uploaded : bool) : M unit :=
  video ← db_get id;
  match video with
  | Some video => db_put (set_uploaded video uploaded)
  | None => mret tt
  end.

(** ** cloudinary.js *)

Definition MAX_FILE_SIZE : N := 100 * 1024 * 1024.
Definition MAX_RETRIES : N := 3.
Definition RETRY_DELAY : N := 2000.

(** [import.meta.env], fixed when the module is loaded. *)
Definition import_meta_env : M Config := fun w =>
  mkOutcome [] (inr (config (env w))) w.

(** [navigator.onLine], through [isOnline()]. *)
Definition isOnline : M bool := fun w =>
  let online := navigator_onLine (env w) (onLine_reads w) in
  mkOutcome [EvIsOnline online] (inr online)
            (with_onLine_reads (S (onLine_reads w)) w).

(** [sleep(ms)] *)
Definition sleep (ms : N) : M unit := emit (EvSleep ms).

Record Validation := mkValidation { valid : bool; errors : list string }.

(** [blob.size] and [blob.type]: a [TypeError] when [blob] is [null] or
    [undefined]. *)
Definition size_of (blob : payload) : exn + N :=
  match blob with
  | Null => inl (nullish_read "null" "size")
  | Undefined => inl (nullish_read "undefined" "size")
  | BlobRef b => inr (blob_size b)
  end.

Definition type_of (blob : payload) : exn + string :=
  match blob with
  | Null => inl (nullish_read "null" "type")
  | Undefined => inl (nullish_read "undefined" "type")
  | BlobRef b => inr (blob_type b)
  end.

(** [!blob] *)
Definition absent (blob : payload) : bool :=
  match blob with
  | BlobRef _ => false
  | _ => true
  end.

Definition EMPTY_FILE : string := "Video file is empty".
Definition INVALID_TYPE : string := "Invalid file type. Expected video file".
Definition NOT_CONFIGURED : string :=
  "Cloudinary credentials not configured. Please check .env file".
Definition OFFLINE : string :=
  "No internet connection. Video saved locally and will be uploaded when online".

(** What [uploadToCloudinary] resolves to. *)
Record UploadResult := mkUploadResult {
  success : bool;
  url : jsval;
  publicId : jsval;
  cloudinaryResponse : json
}.

(** What [uploadWithProgress] resolves to; [body] is what [json()] will
    find in [xhr.responseText]. *)
Record Response := mkResponse {
  ok : bool;
  status : N;
  body : ResponseBody
}.

(** [response.json()] *)
Definition response_json (response : Response) : exn + json :=
  match body response with
  | NotJson msg => inl (mkExn KSyntaxError msg)
  | Json v => inr v
  end.

(** [response.json().catch(() => ({}))] *)
Definition response_json_or_empty (response : Response) : json :=
  match response_json response with
  | inl _ => JObj ∅
  | inr v => v
  end.

(** What the four listeners of [uploadWithProgress] make of the way the
    request ends: it resolves on [load], whatever the status, and rejects
    on [error], [timeout] and [abort]. *)
Definition settle (outcome : XhrOutcome) : exn + Response :=
  match outcome with
  | XhrLoad status body =>
      inr (mkResponse ((200 <=? status) && (status <? 300)) status body)
  | XhrError => inl (new_Error "Network error during upload")
  | XhrTimeout =>
      inl (new_Error "Upload timeout. Please try again with a shorter video")
  | XhrAbort => inl (new_Error "Upload cancelled")
  end.

(** One XMLHttpRequest. The [progress] listener only feeds the caller's
    [onProgress] and is left out, with that parameter. *)
Definition uploadWithProgress (url : string) (formData : FormData) : M Response := fun w =>
  mkOutcome [EvXhrSend url formData]
            (settle (xhr_outcome (env w) (xhr_sends w)))
            (with_xhr_sends (S (xhr_sends w)) w).

Definition retryableMessages : list string :=
  ["network error"; "failed to fetch"; "timeout"; "connection"; "ECONNRESET"; "ETIMEDOUT"].

Definition isRetryableError (error : exn) : bool :=
  let message := toLowerCase (message error) in
  existsb (fun msg => includes message msg) retryableMessages.

(** A rendering of byte counts with which the development is run on
    concrete inputs: the count in whole bytes, not scaled to a unit. *)
Definition formatBytes_unscaled (bytes : N) : string := decimal bytes +:+ " Bytes".

Section Pipeline.

(** [formatBytes] computes in double precision ([Math.log], [toFixed],
    [parseFloat]); the development is parametric in the text it returns. *)
Variable formatBytes : N -> string.

Definition TOO_LARGE (size : N) : string :=
  "Video size (" +:+ formatBytes size +:+ ") exceeds limit ("
    +:+ formatBytes MAX_FILE_SIZE +:+ ")".

Definition validateVideo (blob : payload) : exn + Validation :=
  let errors : list string := [] in
  empty ← (if absent blob then inr true
           else size ← size_of blob; inr (size =? 0));
  let errors := if empty : bool then push errors EMPTY_FILE else errors in
  size ← size_of blob;
  let errors := if MAX_FILE_SIZE <? size then push errors (TOO_LARGE size) else errors in
  type ← type_of blob;
  let errors := if negb (startsWith type "video/") then push errors INVALID_TYPE else errors in
  inr (mkValidation (List.length errors =? 0)%nat errors).

(** The [try] block after the request has resolved: a response that is
    not [ok] is thrown as an error, an [ok] one is read as the result. *)
Definition read_response (response : Response) : exn + UploadResult :=
  (if negb (ok response)
   then
     let errorData := response_json_or_empty response in
     hostMessage ← (error ← getProp errorData "error"; getPropOpt error "message");
     inl (new_Error (if truthy hostMessage then toString hostMessage
                     else "Upload failed with status " +:+ decimal (status response)))
   else inr tt);;
  result ← response_json response;
  secure_url ← getProp result "secure_url";
  public_id ← getProp result "public_id";
  inr (mkUploadResult true secure_url public_id result).

(** The body of the [try] block. *)
Definition transfer (uploadUrl : string) (formData : FormData) : M UploadResult :=
  response ← uploadWithProgress uploadUrl formData;
  lift (read_response response).

Equations? uploadToCloudinary (blob : payload) (retryCount : N) : M UploadResult
  by wf (N.to_nat (MAX_RETRIES - retryCount)) lt :=
uploadToCloudinary blob retryCount :=
  (* Check configuration *)
  emit EvConfigCheck;;
  cfg ← import_meta_env;
  let CLOUDINARY_CLOUD_NAME := VITE_CLOUDINARY_CLOUD_NAME cfg in
  let CLOUDINARY_UPLOAD_PRESET := VITE_CLOUDINARY_UPLOAD_PRESET cfg in
  throw_if (unset CLOUDINARY_CLOUD_NAME || unset CLOUDINARY_UPLOAD_PRESET)
           (new_Error NOT_CONFIGURED);;
  (* Validate file *)
  emit (EvValidate blob);;
  validation ← lift (validateVideo blob);
  throw_if (negb (valid validation)) (new_Error (join ". " (errors validation)));;
  (* Check online status *)
  online ← isOnline;
  throw_if (negb online) (new_Error OFFLINE);;
  let formData := mkFormData blob (env_text CLOUDINARY_UPLOAD_PRESET) "video" in
  let uploadUrl := "https://api.cloudinary.com/v1_1/" +:+ env_text CLOUDINARY_CLOUD_NAME
                     +:+ "/video/upload" in
  try_catch (transfer uploadUrl formData) (fun error =>
    (* Retry logic for network errors *)
    if decide (retryCount < MAX_RETRIES) then
      if isRetryableError error then
        emit (EvConsoleLog ("Upload failed, retrying (" +:+ decimal (retryCount + 1)
                              +:+ "/" +:+ decimal MAX_RETRIES +:+ ")..."));;
        sleep (RETRY_DELAY * (retryCount + 1));;
        uploadToCloudinary blob (retryCount + 1)
      else throw error
    else throw error).
Proof. unfold MAX_RETRIES in *. lia. Qed.

(** ** App.jsx *)

(** What the recorder's closures hold when [onstop] fires:
    [timerRef.current], [chunksRef.current], the tracks of [mediaStream]
    and whether [videoRef.current] is mounted. *)
Record Recorder := mkRecorder {
  timerRef : option N;
  chunksRef : list Blob;
  mediaStream : list string;
  videoRef : bool
}.

(** [new Blob(chunks, { type })]: the chunks, concatenated in order. *)
Definition new_Blob (chunks : list Blob) (type : string) : Blob :=
  mkBlob (foldr (fun chunk total => blob_size chunk + total) 0 chunks) type.

(** [list.forEach(f)] *)
Fixpoint forEach {A} (l : list A) (f : A -> M unit) : M unit :=
  match l with
  | [] => mret tt
  | x :: rest => f x;; forEach rest f
  end.

(** [v.id === id] *)
Definition has_id (key : string) (v : Clip) : bool := String.eqb (id v) key.

Definition loadVideos : M unit :=
  storedVideos ← getVideos;
  emit (EvSetVideos storedVideos).

(** [mediaRecorder.onstop] *)
Definition onstop (recorder : Recorder) : M unit :=
  (* Stop timer *)
  match timerRef recorder with
  | Some timer => if timer =? 0 then mret tt else emit (EvClearInterval timer)
  | None => mret tt
  end;;
  emit (EvSetRecordingTime 0);;
  (* Combine chunks into single blob *)
  let blob := new_Blob (chunksRef recorder) "video/webm" in
  (* CRITICAL: Save to IndexedDB BEFORE upload attempt *)
  saveVideo blob;;
  (* Reload video list *)
  loadVideos;;
  (* Clean up *)
  emit EvChunksReset;;
  forEach (mediaStream recorder) (fun track => emit (EvTrackStop track));;
  (if videoRef recorder then emit EvSrcObjectCleared else mret tt);;
  emit EvSetStreamNull.

Definition LF : string := String (ascii_of_N 10) "".

(** The text [uploadVideo] shows for a failure. *)
Definition failure_text (error : exn) : string :=
  let errorMessage := "Upload failed: " in
  let errorMessage :=
    if includes (message error) "not configured" then
      errorMessage +:+ "Cloudinary not configured. Please check .env file"
    else if includes (message error) "No internet" then
      errorMessage +:+ "No internet connection"
    else if includes (message error) "timeout" then
      errorMessage +:+ "Upload took too long. Try a shorter video"
    else if includes (message error) "exceeds limit" then
      errorMessage +:+ message error
    else
      errorMessage +:+ (if String.eqb (message error) "" then "Unknown error"
                        else message error) in
  errorMessage +:+ LF +:+ LF +:+ "Video is saved locally and you can retry later.".

Definition uploadVideo (id : string) : M unit :=
  (* Check online status first *)
  online ← isOnline;
  if negb online then
    emit (EvAlert ("You are offline. Video is saved locally and will be "
                     +:+ "available when you reconnect."))
  else
    emit (EvSetUploadingId (Some id));;
    emit (EvSetUploadProgress id 0);;
    try_finally
      (try_catch
         ((* Get video from IndexedDB *)
          videoList ← getVideos;
          match List.find (has_id id) videoList with
          | None => throw (new_Error "Video not found in local storage")
          | Some video =>
              (* Upload to Cloudinary with progress tracking *)
              result ← uploadToCloudinary (BlobRef (blob video)) 0;
              if success result then
                (* Upload succeeded - mark as uploaded *)
                updateVideo id true;;
                loadVideos;;
                emit (EvSetUploadProgress id 100);;
                emit (EvAlert ("Upload successful! Video URL: " +:+ toString (url result)));;
                emit (EvConsoleLog "Cloudinary response:")
              else mret tt
          end)
         (fun error =>
            emit (EvConsoleError "Upload failed:");;
            emit (EvAlert (failure_text error))))
      (emit (EvSetUploadingId None);;
       (* Clear progress after 2 seconds *)
       emit (EvSetTimeout 2000)).

(** ** One invocation of [uploadToCloudinary], branch by branch *)

(** Both configuration values are set. *)
Definition configured (cfg : Config) : bool :=
  negb (unset (VITE_CLOUDINARY_CLOUD_NAME cfg) || unset (VITE_CLOUDINARY_UPLOAD_PRESET cfg)).

(** How the [try] block completes when the request ends with [outcome]. *)
Definition attempt (outcome : XhrOutcome) : exn + UploadResult :=
  response ← settle outcome; read_response response.

(** The request an invocation sends. *)
Definition request (cfg : Config) (blob : payload) : event :=
  EvXhrSend ("https://api.cloudinary.com/v1_1/" +:+ env_text (VITE_CLOUDINARY_CLOUD_NAME cfg)
               +:+ "/video/upload")
            (mkFormData blob (env_text (VITE_CLOUDINARY_UPLOAD_PRESET cfg)) "video").

(** The line logged before a retry. *)
Definition retry_log (retryCount : N) : event :=
  EvConsoleLog ("Upload failed, retrying (" +:+ decimal (retryCount + 1)
                  +:+ "/" +:+ decimal MAX_RETRIES +:+ ")...").

(** The world after the connectivity check, and after the request. *)
Definition checked (w : World) : World := with_onLine_reads (S (onLine_reads w)) w.
Definition sent (w : World) : World := with_xhr_sends (S (xhr_sends w)) (checked w).

(** The events of an invocation up to and including its request. *)
Definition through_request (blob : payload) (w : World) : list event :=
  [EvConfigCheck; EvValidate blob; EvIsOnline true; request (config (env w)) blob].

(** The runs of [uploadToCloudinary blob retryCount] from a world: one
    rule for each way an invocation ends, and one for the retry. *)
Inductive Run (blob : payload) : N -> World -> Outcome UploadResult -> Prop :=
| RunNotConfigured rc w :
    configured (config (env w)) = false ->
    Run blob rc w (mkOutcome [EvConfigCheck] (inl (new_Error NOT_CONFIGURED)) w)
| RunValidationThrows rc w e :
    configured (config (env w)) = true ->
    validateVideo blob = inl e ->
    Run blob rc w (mkOutcome [EvConfigCheck; EvValidate blob] (inl e) w)
| RunInvalid rc w v :
    configured (config (env w)) = true ->
    validateVideo blob = inr v -> valid v = false ->
    Run blob rc w (mkOutcome [EvConfigCheck; EvValidate blob]
                             (inl (new_Error (join ". " (errors v)))) w)
| RunOffline rc w v :
    configured (config (env w)) = true ->
    validateVideo blob = inr v -> valid v = true ->
    navigator_onLine (env w) (onLine_reads w) = false ->
    Run blob rc w (mkOutcome [EvConfigCheck; EvValidate blob; EvIsOnline false]
                             (inl (new_Error OFFLINE)) (checked w))
| RunSuccess rc w v r :
    configured (config (env w)) = true ->
    validateVideo blob = inr v -> valid v = true ->
    navigator_onLine (env w) (onLine_reads w) = true ->
    attempt (xhr_outcome (env w) (xhr_sends w)) = inr r ->
    Run blob rc w (mkOutcome (through_request blob w) (inr r) (sent w))
| RunFailure rc w v e :
    configured (config (env w)) = true ->
    validateVideo blob = inr v -> valid v = true ->
    navigator_onLine (env w) (onLine_reads w) = true ->
    attempt (xhr_outcome (env w) (xhr_sends w)) = inl e ->
    ~ (rc < MAX_RETRIES /\ isRetryableError e = true) ->
    Run blob rc w (mkOutcome (through_request blob w) (inl e) (sent w))
| RunRetry rc w v e o :
    configured (config (env w)) = true ->
    validateVideo blob = inr v -> valid v = true ->
    navigator_onLine (env w) (onLine_reads w) = true ->
    attempt (xhr_outcome (env w) (xhr_sends w)) = inl e ->
    rc < MAX_RETRIES -> isRetryableError e = true ->
    Run blob (rc + 1) (sent w) o ->
    Run blob rc w
        (after_events (through_request blob w
                         ++ [retry_log rc; EvSleep (RETRY_DELAY * (rc + 1))]) o).

(** ** Reading traces *)

Definition is_send (ev : event) : bool :=
  match ev with EvXhrSend _ _ => true | _ => false end.

Definition is_track_stop (ev : event) : bool :=
  match ev with EvTrackStop _ => true | _ => false end.

Definition is_refresh (ev : event) : bool :=
  match ev with EvSetVideos _ => true | _ => false end.


(** The requests sent, and the delays slept, in order. *)
Definition sends (t : list event) : list event := List.filter is_send t.

Definition sleeps (t : list event) : list N :=
  omap (fun ev => match ev with EvSleep ms => Some ms | _ => None end) t.



(** The message a host supplies in the body of a failed response:
    [errorData.error?.message], for a body that is not [null]. *)
Definition host_message (body : ResponseBody) : jsval :=
  match body with
  | Json (JObj props) =>
      match props !! "error" with
      | Some (JObj error) => error !! "message"
      | _ => None
      end
  | _ => None
  end.

(** ** The store, as the app calls it *)

(** The calls [App.jsx] makes into [db.js]; [updateVideo] is only ever
    called with [true]. *)
Inductive StoreCall :=
| CallSaveVideo (blob : Blob)
| CallGetVideos
| CallDeleteVideo (key : string)
| CallMarkUploaded (key : string).

Definition call (c : StoreCall) : M unit :=
  match c with
  | CallSaveVideo blob => saveVideo blob;; mret tt
  | CallGetVideos => getVideos;; mret tt
  | CallDeleteVideo key => deleteVideo key
  | CallMarkUploaded key => updateVideo key true
  end.


(** The id [saveVideo] is about to generate. *)
Definition next_id (w : World) : string :=
  "video-" +:+ decimal (Date_now (env w) (clock_reads w)).



(** ** The stop handler, step by step *)

(** What [onstop] does before it saves: it stops the timer. *)
Definition before_write (recorder : Recorder) : list event :=
  (match timerRef recorder with
   | Some timer => if timer =? 0 then [] else [EvClearInterval timer]
   | None => []
   end ++ [EvSetRecordingTime 0])%list.

(** The record [onstop] hands to [db.put]. *)
Definition finalized (recorder : Recorder) (w : World) : Clip :=
  mkClip (next_id w) (new_Blob (chunksRef recorder) "video/webm")
         (Date_now (env w) (S (clock_reads w))) false.

(** The clean-up at the end of [onstop]. *)
Definition teardown (recorder : Recorder) : list event :=
  (EvChunksReset :: List.map EvTrackStop (mediaStream recorder)
     ++ (if videoRef recorder then [EvSrcObjectCleared] else [])
     ++ [EvSetStreamNull])%list.


(** ** Sample inputs *)

Definition sample_config : Config := mkConfig (Some "demo") (Some "unsigned").

(** An environment with the clock stopped at [clock], no storage fault,
    and the given reachability readings and request outcomes, in order
    (online, and aborted, once the lists are used up). *)
Definition sample_env (clock : N) (online : list bool) (outcomes : list XhrOutcome) : Env :=
  mkEnv sample_config (fun _ => clock) (fun n => nth n online true)
        (fun n => nth n outcomes XhrAbort) (fun _ => false).

(** A world with the given store, in which nothing has been read yet. *)
Definition sample_world (e : Env) (s : gmap string Clip) : World := mkWorld e s 0 0 0 0.

Definition sample_blob : Blob := mkBlob 7 "video/webm".

Definition sample_clip (flag : bool) : Clip := mkClip "video-5" sample_blob 5 flag.

Definition sample_recorder : Recorder :=
  mkRecorder (Some 7) [mkBlob 3 "video/webm"; mkBlob 4 "video/webm"] ["video"; "audio"] true.

(** A successful response of the host. *)
Definition sample_success : XhrOutcome :=
  XhrLoad 200 (Json (JObj (<["secure_url" := JStr "https://res.example/v.webm"]>
                            (<["public_id" := JStr "v"]> ∅)))).

(** A 400 response with body [{"error":{"message":"bad preset"}}]. *)
Definition sample_rejection : XhrOutcome :=
  XhrLoad 400 (Json (JObj {["error" := JObj {["message" := JStr "bad preset"]}]})).

(** ** The rest of App.jsx *)

(** [handleDelete(id)]; [confirmed] is the answer to
    [confirm('Delete this video?')]. *)
Definition handleDelete (confirmed : bool) (id : string) : M unit :=
  if confirmed then
    deleteVideo id;;
    loadVideos
  else mret tt.

(** [mediaRecorder.ondataavailable], on [chunksRef.current]: a chunk is
    kept when it is not empty. *)
Definition ondataavailable (data : Blob) (chunks : list Blob) : list Blob :=
  if 0 <? blob_size data then push chunks data else chunks.

(** [chunksRef.current] after the data events [datas], in order, of a
    recording that started with no chunk. *)
Definition recorded (datas : list Blob) : list Blob :=
  fold_left (fun chunks data => ondataavailable data chunks) datas [].

(** [s.padStart(targetLength, c)] for a fill [c] of one code unit. *)
Definition padStart (s : string) (targetLength : nat) (c : ascii) : string :=
  string_of_list_ascii (repeat c (targetLength - String.length s)) +:+ s.

(** [formatTime(seconds)] on a count of seconds. *)
Definition formatTime (seconds : N) : string :=
  let mins := seconds / 60 in
  let secs := seconds mod 60 in
  padStart (decimal mins) 2 "0" +:+ ":" +:+ padStart (decimal secs) 2 "0".

(** Reading a text [mm:ss] back, to state that [formatTime] loses
    nothing: the text before the first colon and the text after it, each
    read as a decimal number. *)
Fixpoint before_colon (s : string) : string :=
  match s with
  | EmptyString => EmptyString
  | String c rest => if Ascii.eqb c ":" then EmptyString else String c (before_colon rest)
  end.

Fixpoint after_colon (s : string) : option string :=
  match s with
  | EmptyString => None
  | String c rest => if Ascii.eqb c ":" then Some rest else after_colon rest
  end.

Definition read_decimal (s : string) : option N :=
  N.of_uint <$> NilEmpty.uint_of_string s.

Definition parseTime (s : string) : option N :=
  match read_decimal (before_colon s), after_colon s ≫= read_decimal with
  | Some mins, Some secs => Some (mins * 60 + secs)
  | _, _ => None
  end.

(** The world in which [uploadVideo] calls [uploadToCloudinary]: after
    its own connectivity check and a [getVideos] that succeeded. *)
Definition listed (w : World) : World :=
  with_store (store w)
    (with_idb_requests (S (idb_requests w))
       (with_onLine_reads (S (onLine_reads w)) w)).

(** The first and the last events of an [uploadVideo] that found the
    browser online. *)
Definition upload_opening (key : string) : list event :=
  [EvIsOnline true; EvSetUploadingId (Some key); EvSetUploadProgress key 0].

Definition upload_closing : list event :=
  [EvSetUploadingId None; EvSetTimeout 2000].

Definition OFFLINE_ALERT : string :=
  "You are offline. Video is saved locally and will be " +:+ "available when you reconnect.".

(** The three blocks of [uploadVideo]: [try], [catch] and [finally]. *)
Definition upload_attempt (id : string) : M unit :=
  videoList ← getVideos;
  match List.find (has_id id) videoList with
  | None => throw (new_Error "Video not found in local storage")
  | Some video =>
      result ← uploadToCloudinary (BlobRef (blob video)) 0;
      if success result then
        updateVideo id true;;
        loadVideos;;
        emit (EvSetUploadProgress id 100);;
        emit (EvAlert ("Upload successful! Video URL: " +:+ toString (url result)));;
        emit (EvConsoleLog "Cloudinary response:")
      else mret tt
  end.

Definition upload_failed (error : exn) : M unit :=
  emit (EvConsoleError "Upload failed:");;
  emit (EvAlert (failure_text error)).

Definition upload_cleanup : M unit :=
  emit (EvSetUploadingId None);;
  emit (EvSetTimeout 2000).

(** The events [uploadToCloudinary] itself causes. *)
Definition is_pipeline_event (ev : event) : bool :=
  match ev with
  | EvConfigCheck | EvValidate _ | EvIsOnline _ | EvXhrSend _ _
  | EvConsoleLog _ | EvSleep _ => true
  | _ => false
  end.

(** [v.key] for a value that is not [null]. *)
Definition own_property (v : json) (key : string) : jsval :=
  match v with
  | JObj props => props !! key
  | _ => None
  end.

(** ** Validation *)

(** C3. [validateVideo] on a Blob returns a result; it is invalid exactly
    when the Blob is empty, or larger than 100 MiB, or its type does not
    start with [video/]; each violation has a message of its own, the
    three messages differ, and the result lists exactly the messages of the
    violations that hold. *)
Theorem validateVideo_reports_violations (b : Blob) :
  MAX_FILE_SIZE = 104857600 /\
  exists v,
    validateVideo (BlobRef b) = inr v /\
    (valid v = false <->
       blob_size b = 0 \/ MAX_FILE_SIZE < blob_size b
       \/ startsWith (blob_type b) "video/" = false) /\
    (In EMPTY_FILE (errors v) <-> blob_size b = 0) /\
    (In (TOO_LARGE (blob_size b)) (errors v) <-> MAX_FILE_SIZE < blob_size b) /\
    (In INVALID_TYPE (errors v) <-> startsWith (blob_type b) "video/" = false) /\
    (forall m, In m (errors v) ->
       m = EMPTY_FILE \/ m = TOO_LARGE (blob_size b) \/ m = INVALID_TYPE) /\
    EMPTY_FILE <> TOO_LARGE (blob_size b) /\
    EMPTY_FILE <> INVALID_TYPE /\
    TOO_LARGE (blob_size b) <> INVALID_TYPE.
Proof.
  split; [reflexivity|].
  destruct b as [size type]. unfold validateVideo. cbn [absent size_of type_of mbind completion_bind blob_size blob_type].
  eexists. split; [reflexivity|].
  assert (Hd1 : EMPTY_FILE <> TOO_LARGE size) by (intros H; discriminate H).
  assert (Hd2 : EMPTY_FILE <> INVALID_TYPE) by (intros H; discriminate H).
  assert (Hd3 : TOO_LARGE size <> INVALID_TYPE) by (intros H; discriminate H).
  destruct (N.eqb_spec size 0) as [H0|H0];
    destruct (N.ltb_spec MAX_FILE_SIZE size) as [Hl|Hl];
    destruct (startsWith type "video/") eqn:Hs;
    cbn [negb push app valid errors List.length Nat.eqb In];
    repeat split; try tauto; try congruence; try lia; intuition (try congruence; try lia).
Qed.

Example validateVideo_at_the_limit :
  validateVideo (BlobRef (mkBlob 104857600 "video/webm")) = inr (mkValidation true []).
Proof. reflexivity. Qed.

Example validateVideo_over_the_limit :
  validateVideo (BlobRef (mkBlob 104857601 "video/webm"))
  = inr (mkValidation false [TOO_LARGE 104857601]).
Proof. reflexivity. Qed.

Example validateVideo_empty_text :
  validateVideo (BlobRef (mkBlob 0 "text/plain"))
  = inr (mkValidation false [EMPTY_FILE; INVALID_TYPE]).
Proof. reflexivity. Qed.

(** C10. [validateVideo] is not total: for an absent payload the guard
    [!blob] records the empty-file violation, and the next statement reads
    [blob.size] and throws a [TypeError]; no result object is returned. *)
Theorem validateVideo_absent_throws :
  validateVideo Null = inl (nullish_read "null" "size") /\
  validateVideo Undefined = inl (nullish_read "undefined" "size").
Proof. split; reflexivity. Qed.

(** ** The upload pipeline *)

(** [uploadToCloudinary], unfolded once. *)
Lemma upload_unfold blob rc w :
  uploadToCloudinary blob rc w =
  if negb (configured (config (env w)))
  then mkOutcome [EvConfigCheck] (inl (new_Error NOT_CONFIGURED)) w
  else match validateVideo blob with
       | inl e => mkOutcome [EvConfigCheck; EvValidate blob] (inl e) w
       | inr v =>
         if negb (valid v)
         then mkOutcome [EvConfigCheck; EvValidate blob]
                        (inl (new_Error (join ". " (errors v)))) w
         else if negb (navigator_onLine (env w) (onLine_reads w))
         then mkOutcome [EvConfigCheck; EvValidate blob; EvIsOnline false]
                        (inl (new_Error OFFLINE)) (checked w)
         else
           match attempt (xhr_outcome (env w) (xhr_sends w)) with
           | inr r => mkOutcome (through_request blob w) (inr r) (sent w)
           | inl e =>
             if bool_decide (rc < MAX_RETRIES) && isRetryableError e
             then after_events
                    (through_request blob w
                       ++ [retry_log rc; EvSleep (RETRY_DELAY * (rc + 1))])
                    (uploadToCloudinary blob (rc + 1) (sent w))
             else mkOutcome (through_request blob w) (inl e) (sent w)
           end
       end.
Proof.
  rewrite uploadToCloudinary_equation_1.
  unfold configured, attempt, request, retry_log, checked, sent, through_request,
    transfer, uploadWithProgress, sleep, emit, import_meta_env, throw_if, lift,
    isOnline, try_catch, throw, mbind, M_bind, mret, M_ret.
  cbn [after_events app].
  destruct (unset _ || unset _); cbn [negb after_events app]; [reflexivity|].
  destruct (validateVideo blob) as [e|v]; cbn [negb after_events app]; [reflexivity|].
  destruct (valid v); cbn [negb after_events app]; [|reflexivity].
  destruct (navigator_onLine _ _);
    cbn [negb after_events app env xhr_sends with_onLine_reads]; [|reflexivity].
  destruct (settle _) as [e|r]; cbn [completion_bind after_events app].
  - destruct (decide (rc < MAX_RETRIES)).
    + rewrite bool_decide_true by assumption. cbn [andb].
      destruct (isRetryableError e); cbn [after_events app]; [|reflexivity].
      destruct (uploadToCloudinary _ _ _); reflexivity.
    + rewrite bool_decide_false by assumption. reflexivity.
  - destruct (read_response r) as [e|u]; cbn [after_events app]; [|reflexivity].
    destruct (decide (rc < MAX_RETRIES)).
    + rewrite bool_decide_true by assumption. cbn [andb].
      destruct (isRetryableError e); cbn [after_events app]; [|reflexivity].
      destruct (uploadToCloudinary _ _ _); reflexivity.
    + rewrite bool_decide_false by assumption. reflexivity.
Qed.

(** Every invocation is a run: the recursion ends, because the retry
    count grows towards [MAX_RETRIES]. *)
Lemma upload_run blob rc w : Run blob rc w (uploadToCloudinary blob rc w).
Proof.
  remember (N.to_nat (MAX_RETRIES - rc)) as budget eqn:Hb.
  revert rc w Hb.
  induction budget as [|budget IH]; intros rc w Hb; rewrite upload_unfold.
  all: destruct (configured (config (env w))) eqn:Hc; cbn [negb];
    [|by apply RunNotConfigured].
  all: destruct (validateVideo blob) as [e|v] eqn:Hv; [by apply RunValidationThrows|].
  all: destruct (valid v) eqn:Hvalid; cbn [negb]; [|by eapply RunInvalid].
  all: destruct (navigator_onLine (env w) (onLine_reads w)) eqn:Hon; cbn [negb];
    [|by eapply RunOffline].
  all: destruct (attempt _) as [e|r] eqn:Ha; [|by eapply RunSuccess].
  - rewrite bool_decide_false by lia. cbn [andb].
    eapply RunFailure; eauto. lia.
  - destruct (decide (rc < MAX_RETRIES)) as [Hlt|Hge].
    + rewrite bool_decide_true by assumption. cbn [andb].
      destruct (isRetryableError e) eqn:Hr.
      * eapply RunRetry; eauto. apply IH. lia.
      * eapply RunFailure; eauto. intros [_ ?]; congruence.
    + rewrite bool_decide_false by assumption. cbn [andb].
      eapply RunFailure; eauto. tauto.
Qed.

(** Projections of [after_events]. *)
Lemma trace_after_events {A} t (o : Outcome A) : trace (after_events t o) = (t ++ trace o)%list.
Proof. by destruct o. Qed.
Lemma result_after_events {A} t (o : Outcome A) : result (after_events t o) = result o.
Proof. by destruct o. Qed.
Lemma final_after_events {A} t (o : Outcome A) : final (after_events t o) = final o.
Proof. by destruct o. Qed.

(** An invalid result carries a message that starts with V or I. *)
Lemma validation_message_head blob v :
  validateVideo blob = inr v -> valid v = false ->
  exists c rest, join ". " (errors v) = String c rest /\ (c = "V"%char \/ c = "I"%char).
Proof.
  destruct blob as [| |[size type]]; [discriminate..|].
  unfold validateVideo.
  cbn [absent size_of type_of mbind completion_bind blob_size blob_type].
  intros [= <-].
  destruct (size =? 0), (MAX_FILE_SIZE <? size), (startsWith type "video/");
    cbn [negb push app valid errors List.length Nat.eqb join String.concat];
    try discriminate; intros _; unfold EMPTY_FILE, TOO_LARGE, INVALID_TYPE;
    cbn [String.append]; eauto.
Qed.

(** C4. An invocation checks the configuration, then the payload, then
    connectivity, and stops at the first check that fails: without
    configuration it throws the configuration error before validating; with
    a payload that does not validate it throws a second, different error
    before reading the reachability signal; offline it throws the offline
    error after exactly these three steps, with no request sent and no
    retry delay slept. The three errors differ. *)
Theorem preconditions_in_order blob rc w :
  let o := uploadToCloudinary blob rc w in
  (configured (config (env w)) = false ->
     o = mkOutcome [EvConfigCheck] (inl (new_Error NOT_CONFIGURED)) w) /\
  (configured (config (env w)) = true ->
   (forall v, validateVideo blob = inr v -> valid v = false) ->
     exists e,
       o = mkOutcome [EvConfigCheck; EvValidate blob] (inl e) w /\
       e <> new_Error NOT_CONFIGURED /\ e <> new_Error OFFLINE /\
       (forall v, validateVideo blob = inr v -> e = new_Error (join ". " (errors v)))) /\
  (configured (config (env w)) = true ->
   (exists v, validateVideo blob = inr v /\ valid v = true) ->
   navigator_onLine (env w) (onLine_reads w) = false ->
     o = mkOutcome [EvConfigCheck; EvValidate blob; EvIsOnline false]
                   (inl (new_Error OFFLINE)) (checked w) /\
     sends (trace o) = [] /\ sleeps (trace o) = [] /\
     xhr_sends (final o) = xhr_sends w) /\
  NOT_CONFIGURED <> OFFLINE.
Proof.
  cbv zeta. rewrite upload_unfold. split; [|split; [|split]].
  - intros ->. reflexivity.
  - intros -> Hbad. cbn [negb].
    destruct (validateVideo blob) as [e|v] eqn:Hv.
    + exists e. split; [reflexivity|].
      assert (Hk : kind e = KTypeError).
      { destruct blob as [| |b]; try (injection Hv as <-; reflexivity).
        exfalso; revert Hv; unfold validateVideo;
        cbn [absent size_of type_of mbind completion_bind]; discriminate. }
      split; [|split]; [intros ->; discriminate Hk..|congruence].
    + rewrite (Hbad v eq_refl). cbn [negb]. eexists. split; [reflexivity|].
      destruct (validation_message_head blob v Hv (Hbad v eq_refl)) as (c & rest & Hj & Hc).
      rewrite Hj. split; [|split].
      * intros [= -> _]. destruct Hc; discriminate.
      * intros [= -> _]. destruct Hc; discriminate.
      * intros v' [= <-]. by rewrite Hj.
  - intros -> (v & -> & ->) ->. repeat split.
  - intros Hne; discriminate Hne.
Qed.

Lemma sends_retry blob w rc d t :
  sends ((through_request blob w ++ [retry_log rc; EvSleep d]) ++ t)
  = request (config (env w)) blob :: sends t.
Proof. reflexivity. Qed.

Lemma sleeps_retry blob w rc d t :
  sleeps ((through_request blob w ++ [retry_log rc; EvSleep d]) ++ t) = d :: sleeps t.
Proof. reflexivity. Qed.

(** A run leaves the store, the environment and the other cursors as
    they were. *)
Lemma run_frame blob rc w o :
  Run blob rc w o ->
  store (final o) = store w /\ env (final o) = env w /\
  clock_reads (final o) = clock_reads w /\ idb_requests (final o) = idb_requests w.
Proof.
  induction 1; rewrite ?final_after_events; cbn [final]; try (repeat split; reflexivity).
  destruct IHRun as (-> & -> & -> & ->). repeat split.
Qed.

(** At most [MAX_RETRIES - rc] delays and one request more. *)
Lemma run_bounds blob rc w o :
  Run blob rc w o ->
  (List.length (sends (trace o)) <= S (N.to_nat (MAX_RETRIES - rc)))%nat /\
  (List.length (sleeps (trace o)) <= N.to_nat (MAX_RETRIES - rc))%nat.
Proof.
  induction 1; rewrite ?trace_after_events; cbn [trace];
    try (cbn; split; lia).
  rewrite sends_retry, sleeps_retry. cbn [List.length].
  unfold MAX_RETRIES in *. destruct IHRun. split; lia.
Qed.


(** Every request of a run carries the payload of the call. *)
Lemma run_sends_payload blob rc w o :
  Run blob rc w o ->
  forall url formData, In (EvXhrSend url formData) (trace o) -> file formData = blob.
Proof.
  induction 1; rewrite ?trace_after_events; cbn [trace]; intros url fd Hin.
  all: rewrite ?in_app_iff in Hin; unfold through_request, request, retry_log in Hin;
    cbn [In] in Hin.
  all: repeat match goal with
         | H : _ \/ _ |- _ => destruct H
         | H : False |- _ => destruct H
         | H : _ = EvXhrSend _ _ |- _ => first [discriminate H | injection H as <- <-]
         end; try reflexivity.
  by eapply IHRun.
Qed.






(** No lower-cased code unit is an upper-case E. *)
Lemma lower_unit_not_E c : lower_unit c <> "E"%char.
Proof. destruct c as [[] [] [] [] [] [] [] []]; vm_compute; discriminate. Qed.

(** A lower-cased message contains no pattern that starts with an
    upper-case E: of the six patterns, [ECONNRESET] and [ETIMEDOUT] never
    match. *)
Lemma upper_case_patterns_never_match s pat :
  includes (toLowerCase s) (String "E" pat) = false.
Proof.
  induction s as [|c s IH]; [reflexivity|].
  cbn [toLowerCase includes String.prefix]. rewrite IH.
  destruct (ascii_dec "E" (lower_unit c)) as [Heq|_]; [|reflexivity].
  by destruct (lower_unit_not_E c).
Qed.

Example connection_reset_is_not_retried :
  isRetryableError (new_Error "read ECONNRESET") = false /\
  isRetryableError (new_Error "Network error during upload") = true /\
  isRetryableError (new_Error "Upload timeout. Please try again with a shorter video") = true /\
  isRetryableError (new_Error "Upload cancelled") = false.
Proof. repeat split. Qed.

Lemma isRetryableError_spec error :
  isRetryableError error = true <->
  exists msg, In msg retryableMessages /\ includes (toLowerCase (message error)) msg = true.
Proof. unfold isRetryableError. apply existsb_exists. Qed.

(** An invocation that passes the three checks and whose request fails
    ends there, unless a retry is left and the error is retryable. *)
Lemma upload_fails_at_once blob rc w v e :
  configured (config (env w)) = true ->
  validateVideo blob = inr v -> valid v = true ->
  navigator_onLine (env w) (onLine_reads w) = true ->
  attempt (xhr_outcome (env w) (xhr_sends w)) = inl e ->
  MAX_RETRIES <= rc \/ isRetryableError e = false ->
  uploadToCloudinary blob rc w = mkOutcome (through_request blob w) (inl e) (sent w).
Proof.
  intros Hc Hv Hvalid Hon Ha Hstop.
  rewrite upload_unfold, Hc, Hv, Hvalid, Hon, Ha. cbn [negb].
  destruct Hstop as [Hge| ->].
  - rewrite bool_decide_false by lia. reflexivity.
  - by rewrite andb_false_r.
Qed.

(** With a retry left and a retryable error, it logs, sleeps and starts
    over. *)
Lemma upload_retries blob rc w v e :
  configured (config (env w)) = true ->
  validateVideo blob = inr v -> valid v = true ->
  navigator_onLine (env w) (onLine_reads w) = true ->
  attempt (xhr_outcome (env w) (xhr_sends w)) = inl e ->
  rc < MAX_RETRIES -> isRetryableError e = true ->
  uploadToCloudinary blob rc w =
  after_events (through_request blob w ++ [retry_log rc; EvSleep (RETRY_DELAY * (rc + 1))])
               (uploadToCloudinary blob (rc + 1) (sent w)).
Proof.
  intros Hc Hv Hvalid Hon Ha Hlt Hr.
  rewrite upload_unfold, Hc, Hv, Hvalid, Hon, Ha, Hr. cbn [negb].
  by rewrite bool_decide_true by assumption.
Qed.

(** A retry delay is slept only after a retryable failure with a retry
    left. *)
Lemma upload_sleeps_only_if blob rc w :
  sleeps (trace (uploadToCloudinary blob rc w)) <> [] ->
  rc < MAX_RETRIES /\
  exists e, attempt (xhr_outcome (env w) (xhr_sends w)) = inl e /\
            isRetryableError e = true.
Proof.
  rewrite upload_unfold.
  destruct (configured _); cbn [negb]; [|by intros []].
  destruct (validateVideo blob) as [e|v]; [by intros []|].
  destruct (valid v); cbn [negb]; [|by intros []].
  destruct (navigator_onLine _ _); cbn [negb]; [|by intros []].
  destruct (attempt _) as [e|r]; [|by intros []].
  destruct (bool_decide_reflect (rc < MAX_RETRIES)) as [Hlt|Hge]; cbn [andb]; [|by intros []].
  destruct (isRetryableError e) eqn:Hr; [|by intros []].
  eauto.
Qed.

(** C2. The retry policy. [MAX_RETRIES] is 3, so an upload sends at most
    four requests and sleeps at most three retry delays. An error is
    retryable exactly when its message, in lower case, contains one of the
    six fixed substrings. A retry delay is slept only after a retryable
    failure with a retry left; a failure that is not retryable ends the
    upload with that error, one request sent and no delay slept, and so does
    any failure once the retries are used up: after four failed requests the
    fourth error is the outcome. *)
Theorem retry_policy :
  MAX_RETRIES = 3 /\
  retryableMessages
  = ["network error"; "failed to fetch"; "timeout"; "connection"; "ECONNRESET"; "ETIMEDOUT"] /\
  (forall error,
     isRetryableError error = true <->
     exists msg, In msg retryableMessages /\
                 includes (toLowerCase (message error)) msg = true) /\
  (forall blob w,
     let o := uploadToCloudinary blob 0 w in
     (List.length (sends (trace o)) <= 4)%nat /\
     (List.length (sleeps (trace o)) <= 3)%nat) /\
  (forall blob rc w,
     sleeps (trace (uploadToCloudinary blob rc w)) <> [] ->
     rc < MAX_RETRIES /\
     exists e, attempt (xhr_outcome (env w) (xhr_sends w)) = inl e /\
               isRetryableError e = true) /\
  (forall blob rc w v e,
     configured (config (env w)) = true ->
     validateVideo blob = inr v -> valid v = true ->
     navigator_onLine (env w) (onLine_reads w) = true ->
     attempt (xhr_outcome (env w) (xhr_sends w)) = inl e ->
     MAX_RETRIES <= rc \/ isRetryableError e = false ->
     let o := uploadToCloudinary blob rc w in
     result o = inl e /\ sleeps (trace o) = [] /\
     sends (trace o) = [request (config (env w)) blob]) /\
  (forall blob w v e0 e1 e2 e3,
     configured (config (env w)) = true ->
     validateVideo blob = inr v -> valid v = true ->
     (forall k, (k < 4)%nat -> navigator_onLine (env w) (k + onLine_reads w) = true) ->
     attempt (xhr_outcome (env w) (0 + xhr_sends w)) = inl e0 ->
     attempt (xhr_outcome (env w) (1 + xhr_sends w)) = inl e1 ->
     attempt (xhr_outcome (env w) (2 + xhr_sends w)) = inl e2 ->
     attempt (xhr_outcome (env w) (3 + xhr_sends w)) = inl e3 ->
     isRetryableError e0 = true -> isRetryableError e1 = true ->
     isRetryableError e2 = true ->
     let o := uploadToCloudinary blob 0 w in
     result o = inl e3 /\ sleeps (trace o) = [2000; 4000; 6000] /\
     List.length (sends (trace o)) = 4%nat).
Proof.
  split; [reflexivity|]. split; [reflexivity|].
  split; [exact isRetryableError_spec|].
  split; [intros blob w; exact (run_bounds _ _ _ _ (upload_run blob 0 w))|].
  split; [exact upload_sleeps_only_if|].
  split.
  - intros blob rc w v e Hc Hv Hvalid Hon Ha Hstop. cbv zeta.
    by rewrite (upload_fails_at_once blob rc w v e).
  - intros blob w v e0 e1 e2 e3 Hc Hv Hvalid Hon H0 H1 H2 H3 R0 R1 R2. cbv zeta.
    assert (L1 : 0 < MAX_RETRIES) by (unfold MAX_RETRIES; lia).
    assert (L2 : 0 + 1 < MAX_RETRIES) by (unfold MAX_RETRIES; lia).
    assert (L3 : 0 + 1 + 1 < MAX_RETRIES) by (unfold MAX_RETRIES; lia).
    assert (L4 : MAX_RETRIES <= 0 + 1 + 1 + 1) by (unfold MAX_RETRIES; lia).
    rewrite (upload_retries blob 0 w v e0 Hc Hv Hvalid (Hon 0%nat ltac:(lia)) H0 L1 R0).
    rewrite (upload_retries blob (0 + 1) (sent w) v e1
               Hc Hv Hvalid (Hon 1%nat ltac:(lia)) H1 L2 R1).
    rewrite (upload_retries blob (0 + 1 + 1) (sent (sent w)) v e2
               Hc Hv Hvalid (Hon 2%nat ltac:(lia)) H2 L3 R2).
    rewrite (upload_fails_at_once blob (0 + 1 + 1 + 1) (sent (sent (sent w))) v e3
               Hc Hv Hvalid (Hon 3%nat ltac:(lia)) H3 (or_introl L4)).
    repeat split.
Qed.


(** A response that is not [ok], with a body other than [null], is thrown
    as an [Error] whose message is the host's when it supplies a truthy one,
    and names the status otherwise. *)
Lemma failed_response_message code content :
  (200 <=? code) && (code <? 300) = false ->
  content <> Json JNull ->
  attempt (XhrLoad code content)
  = inl (new_Error (if truthy (host_message content) then toString (host_message content)
                    else "Upload failed with status " +:+ decimal code)).
Proof.
  intros Hok Hbody. unfold attempt, settle, read_response, response_json_or_empty, response_json.
  cbn [mbind completion_bind ok body status]. rewrite Hok. cbn [negb].
  destruct content as [msg|[| | | | |props]]; try done.
  cbn [getProp mbind completion_bind host_message].
  destruct (props !! "error") as [[| | | | |error]|]; reflexivity.
Qed.

(** C6. A response that is not [ok] and whose body is the JSON value
    [null] is thrown neither with a host message nor with the status:
    reading [errorData.error] throws a [TypeError], which is not retryable
    and ends the upload. *)
Theorem null_error_body_throws_TypeError blob rc w v code :
  configured (config (env w)) = true ->
  validateVideo blob = inr v -> valid v = true ->
  navigator_onLine (env w) (onLine_reads w) = true ->
  xhr_outcome (env w) (xhr_sends w) = XhrLoad code (Json JNull) ->
  (200 <=? code) && (code <? 300) = false ->
  result (uploadToCloudinary blob rc w)
  = inl (mkExn KTypeError "Cannot read properties of null (reading 'error')").
Proof.
  intros Hc Hv Hvalid Hon Hx Hok.
  rewrite (upload_fails_at_once blob rc w v (nullish_read "null" "error")); try done.
  - rewrite Hx. unfold attempt, settle, read_response.
    cbn [mbind completion_bind ok]. by rewrite Hok.
  - by right.
Qed.

(** ** The local store *)

Ltac step_idb :=
  cbn [negb after_events app env store idb_requests clock_reads onLine_reads xhr_sends
       with_clock_reads with_idb_requests with_store with_onLine_reads with_xhr_sends
       trace result final].

Ltac run_idb :=
  unfold call, saveVideo, getVideos, deleteVideo, updateVideo, db_put, db_get, db_getAll,
    db_delete, idb, now, mbind, M_bind, mret, M_ret;
  step_idb.

(** C7. [updateVideo] on an id that is not in the store writes nothing:
    it issues no [put], leaves the store as it is, so without a record at
    that id, and returns normally (unless the read itself fails, with the
    storage failure). After a [deleteVideo] of the id that succeeded,
    [updateVideo(id, true)] still leaves no record at the id. *)
Theorem updateVideo_absent_is_noop :
  (forall key value w,
     store w !! key = None ->
     let o := updateVideo key value w in
     store (final o) = store w /\
     store (final o) !! key = None /\
     (forall video ok, ~ In (EvIdb (Put video) ok) (trace o)) /\
     (idb_fault (env w) (idb_requests w) = false -> result o = inr tt) /\
     (idb_fault (env w) (idb_requests w) = true -> result o = inl storage_failure)) /\
  (forall key w,
     let o1 := deleteVideo key w in
     result o1 = inr tt ->
     let o2 := updateVideo key true (final o1) in
     store (final o1) !! key = None /\
     store (final o2) !! key = None /\
     store (final o2) = store (final o1)).
Proof.
  split.
  - intros key value w Hnone. run_idb.
    destruct (idb_fault (env w) (idb_requests w)); step_idb.
    + repeat split; try done. intros video ok [H|[]]; discriminate H.
    + rewrite Hnone. step_idb.
      repeat split; try done. intros video ok [H|[]]; discriminate H.
  - intros key w. run_idb.
    destruct (idb_fault (env w) (idb_requests w));
      step_idb; [discriminate|].
    intros _.
    destruct (idb_fault (env w) (S (idb_requests w)));
      step_idb.
    + by rewrite lookup_delete_eq.
    + rewrite lookup_delete_eq. step_idb. by rewrite lookup_delete_eq.
Qed.

(** C8. [updateVideo] on an id that is in the store leaves a record at
    that id with the same [id], [blob] and [createdAt] (and the new
    [uploaded] when the call returns normally), and leaves every other
    record as it was. *)
Theorem updateVideo_changes_only_uploaded key value w video :
  keyed (store w) ->
  store w !! key = Some video ->
  let o := updateVideo key value w in
  (exists video',
     store (final o) !! key = Some video' /\
     id video' = id video /\ blob video' = blob video /\
     createdAt video' = createdAt video /\
     (result o = inr tt -> uploaded video' = value) /\
     (result o <> inr tt -> video' = video)) /\
  (forall k, k <> key -> store (final o) !! k = store w !! k).
Proof.
  intros Hkeyed Hsome. pose proof (Hkeyed _ _ Hsome) as Hid. run_idb.
  destruct (idb_fault (env w) (idb_requests w)); step_idb.
  { split; [|done]. exists video. repeat split; try done. }
  rewrite Hsome. step_idb.
  destruct (idb_fault (env w) (S (idb_requests w))); step_idb.
  { split; [|done]. exists video. repeat split; try done. }
  cbn [set_uploaded id]. rewrite Hid. split.
  - eexists. rewrite lookup_insert_eq. split; [reflexivity|]. repeat split; try done.
  - intros k Hk. by rewrite lookup_insert_ne.
Qed.

(** The key path holds of the empty store and is kept by every call. *)
Lemma keyed_empty : keyed ∅.
Proof. intros k c. by rewrite lookup_empty. Qed.

Lemma put_keyed s video : keyed s -> keyed (<[id video := video]> s).
Proof.
  intros Hs k c. rewrite lookup_insert. case_decide; [by intros [= <-]|apply Hs].
Qed.

Lemma call_keyed c w : keyed (store w) -> keyed (store (final (call c w))).
Proof.
  intros Hs. destruct c; run_idb.
  - destruct (idb_fault _ _); step_idb; [done|].
    by apply put_keyed.
  - by destruct (idb_fault _ _).
  - destruct (idb_fault _ _); step_idb; [done|].
    intros k c. rewrite lookup_delete. case_decide; [done|apply Hs].
  - destruct (idb_fault _ _); step_idb; [done|].
    destruct (store w !! key) as [video|]; step_idb; [|done].
    destruct (idb_fault _ _); step_idb; [done|].
    by apply put_keyed.
Qed.




(** ** The recorder *)

Lemma sends_app a b : sends (a ++ b) = (sends a ++ sends b)%list.
Proof. apply List.filter_app. Qed.

Lemma forEach_track_stop tracks w :
  forEach tracks (fun track => emit (EvTrackStop track)) w
  = mkOutcome (List.map EvTrackStop tracks) (inr tt) w.
Proof.
  induction tracks as [|track tracks IH]; [reflexivity|].
  cbn [forEach List.map]. unfold mbind, M_bind, emit at 1. by rewrite IH.
Qed.

(** [onstop], by the outcome of its two requests to the store. *)
Lemma onstop_unfold recorder w :
  let o := onstop recorder w in
  let video := finalized recorder w in
  xhr_sends (final o) = xhr_sends w /\
  if idb_fault (env w) (idb_requests w) then
    trace o = (before_write recorder ++ [EvIdb (Put video) false])%list /\
    result o = inl storage_failure /\ store (final o) = store w
  else
    store (final o) = <[id video := video]> (store w) /\
    if idb_fault (env w) (S (idb_requests w)) then
      trace o = (before_write recorder
                   ++ [EvIdb (Put video) true; EvIdb GetAll false])%list /\
      result o = inl storage_failure
    else
      trace o = (before_write recorder
                   ++ [EvIdb (Put video) true; EvIdb GetAll true;
                       EvSetVideos (map_to_list (<[id video := video]> (store w))).*2]
                   ++ teardown recorder)%list /\
      result o = inr tt.
Proof.
  unfold onstop, loadVideos, before_write, finalized, teardown, next_id. run_idb.
  unfold emit.
  destruct (timerRef recorder) as [timer|]; [destruct (timer =? 0)|]; step_idb.
  all: destruct (idb_fault (env w) (idb_requests w)); step_idb; [done|].
  all: destruct (idb_fault (env w) (S (idb_requests w))); step_idb; [done|].
  all: rewrite forEach_track_stop; step_idb.
  all: destruct (videoRef recorder); step_idb; repeat split; try done.
  all: by rewrite <- ?app_assoc.
Qed.
(** A record that [find] picks among the stored ones is stored and has
    the id asked for. *)
Lemma find_stored key (s : gmap string Clip) video :
  List.find (has_id key) (map_to_list s).*2 = Some video ->
  exists k, s !! k = Some video /\ id video = key.
Proof.
  intros Hfind. apply find_some in Hfind as [Hin Hid].
  apply list_elem_of_In, list_elem_of_fmap in Hin as ([k c] & -> & Hin).
  apply elem_of_map_to_list in Hin. exists k. split; [done|].
  by apply String.eqb_eq.
Qed.

Ltac solve_sends :=
  unfold sends; cbn [List.filter is_send app];
  rewrite ?List.filter_app; cbn [List.filter is_send app];
  rewrite ?app_nil_r; done.

(** The requests [uploadVideo] sends are those of the upload of a stored
    record with the id asked for. *)
Lemma uploadVideo_sends key w :
  sends (trace (uploadVideo key w)) = [] \/
  exists k video w',
    store w !! k = Some video /\ id video = key /\
    sends (trace (uploadVideo key w))
    = sends (trace (uploadToCloudinary (BlobRef (blob video)) 0 w')).
Proof.
  unfold uploadVideo, isOnline, try_finally, try_catch, loadVideos, emit. run_idb.
  destruct (navigator_onLine (env w) (onLine_reads w)); step_idb; [|by left].
  destruct (idb_fault (env w) (idb_requests w)); step_idb; [by left|].
  destruct (List.find _ _) as [video|] eqn:Hfind; step_idb; [|by left].
  apply find_stored in Hfind as (k & Hk & Hid).
  right. exists k, video.
  exists (with_store (store w)
            (with_idb_requests (S (idb_requests w))
               (with_onLine_reads (S (onLine_reads w)) w))).
  split; [done|]. split; [done|].
  destruct (uploadToCloudinary _ _ _) as [t [e|r] w'] eqn:Hup; step_idb.
  { solve_sends. }
  destruct (success r); step_idb.
  2:{ solve_sends. }
  repeat match goal with
         | |- context [if idb_fault ?e ?n then _ else _] =>
             destruct (idb_fault e n); step_idb
         | |- context [match store ?w0 !! ?k0 with _ => _ end] =>
             destruct (store w0 !! k0); step_idb
         end.
  all: solve_sends.
Qed.

(** An element that comes after [x] in a list has [x] before it, however
    the list is split at it. *)
Lemma In_before {A} (a : list A) x b pre ev rest :
  (a ++ x :: b = pre ++ ev :: rest)%list -> ~ In ev a -> ev <> x -> In x pre.
Proof.
  revert pre. induction a as [|y a IH]; intros [|z pre]; cbn [app]; intros Heq Ha Hx.
  - injection Heq as <- _. by destruct Hx.
  - injection Heq as <- _. by left.
  - injection Heq as <- _. destruct Ha. by left.
  - injection Heq as <- Heq. right. apply (IH pre Heq); [|done].
    intros Hin. apply Ha. by right.
Qed.

(** C1. The stop handler hands the finalized recording, with
    [uploaded = false], to [db.put] before anything else than stopping the
    timer. A write that fails ends the handler there, with the storage
    failure and the store unchanged; a write that succeeds leaves the record
    in the store. The list is refreshed and a track is released only after
    the write has succeeded; a handler that completes has stored the record
    and released every track. The handler sends no request. [uploadVideo]
    sends requests only for the blob of a record that is in the store under
    the id asked for. *)
Theorem recording_is_stored_first :
  (forall recorder w,
     let o := onstop recorder w in
     let video := finalized recorder w in
     uploaded video = false /\
     blob video = new_Blob (chunksRef recorder) "video/webm" /\
     (forall ev, In ev (before_write recorder) ->
        (exists timer, ev = EvClearInterval timer) \/ ev = EvSetRecordingTime 0) /\
     (exists ok post,
        trace o = (before_write recorder ++ EvIdb (Put video) ok :: post)%list /\
        (ok = true -> store (final o) !! id video = Some video) /\
        (ok = false ->
           post = [] /\ result o = inl storage_failure /\
           store (final o) = store w)) /\
     (forall pre ev rest,
        trace o = (pre ++ ev :: rest)%list ->
        is_track_stop ev = true \/ is_refresh ev = true ->
        In (EvIdb (Put video) true) pre) /\
     (result o = inr tt ->
        store (final o) !! id video = Some video /\
        forall track, In track (mediaStream recorder) ->
                      In (EvTrackStop track) (trace o)) /\
     sends (trace o) = [] /\
     xhr_sends (final o) = xhr_sends w) /\
  (forall key w url formData,
     In (EvXhrSend url formData) (trace (uploadVideo key w)) ->
     exists k video,
       store w !! k = Some video /\ id video = key /\
       file formData = BlobRef (blob video)).
Proof.
  split.
  - intros recorder w. cbv zeta.
    destruct (onstop_unfold recorder w) as [Hx Ho].
    assert (Hpre : forall ev, In ev (before_write recorder) ->
              (exists timer, ev = EvClearInterval timer) \/ ev = EvSetRecordingTime 0).
    { unfold before_write. intros ev.
      destruct (timerRef recorder) as [timer|]; [destruct (timer =? 0)|]; cbn;
        intuition eauto. }
    assert (Hquiet : forall ev, In ev (before_write recorder) ->
              is_track_stop ev = false /\ is_refresh ev = false /\ is_send ev = false).
    { intros ev [[timer ->]| ->]%Hpre; done. }
    assert (Hns : forall t, sends (before_write recorder ++ t) = sends t).
    { intros t. rewrite sends_app.
      replace (sends (before_write recorder)) with (@nil event); [done|].
      unfold before_write.
      by destruct (timerRef recorder) as [timer|]; [destruct (timer =? 0)|]. }
    assert (Htd : sends (teardown recorder) = []).
    { unfold teardown. cbn. rewrite !sends_app.
      replace (sends (List.map EvTrackStop (mediaStream recorder))) with (@nil event).
      - by destruct (videoRef recorder).
      - by induction (mediaStream recorder). }
    assert (Htracks : forall track, In track (mediaStream recorder) ->
              In (EvTrackStop track) (teardown recorder)).
    { intros track Hin. unfold teardown. right. rewrite in_app_iff. left.
      by apply in_map. }
    split; [done|]. split; [done|]. split; [exact Hpre|].
    destruct (idb_fault (env w) (idb_requests w)).
    { destruct Ho as (Ht & Hr & Hs). rewrite Ht, Hr, Hs, Hns.
      split; [|split; [|split; [done|split; [done|exact Hx]]]].
      - exists false, []. repeat split; try done.
      - intros pre ev rest Heq Hev. exfalso.
        assert (Hin : In ev (before_write recorder ++ [EvIdb (Put (finalized recorder w)) false])).
        { rewrite Heq, in_app_iff. right. by left. }
        rewrite in_app_iff in Hin. destruct Hin as [Hin|[<-|[]]].
        + destruct (Hquiet ev Hin) as (? & ? & _). destruct Hev; congruence.
        + destruct Hev; discriminate. }
    destruct Ho as (Hs & Ho). rewrite Hs.
    assert (Hafter : forall post pre ev rest,
              (before_write recorder ++ EvIdb (Put (finalized recorder w)) true :: post
               = pre ++ ev :: rest)%list ->
              is_track_stop ev = true \/ is_refresh ev = true ->
              In (EvIdb (Put (finalized recorder w)) true) pre).
    { intros post pre ev rest Heq Hev. eapply In_before; [exact Heq| |].
      - intros Hin. destruct (Hquiet ev Hin) as (? & ? & _). destruct Hev; congruence.
      - intros ->. destruct Hev; discriminate. }
    destruct (idb_fault (env w) (S (idb_requests w))); destruct Ho as (Ht & Hr);
      rewrite Ht, Hr, Hns.
    + split; [|split; [|split; [done|split; [done|exact Hx]]]].
      * eexists true, _. split; [reflexivity|]. split; [|done].
        intros _. by rewrite lookup_insert_eq.
      * apply Hafter.
    + split; [|split; [|split; [|split; [|exact Hx]]]].
      * eexists true, _. split; [reflexivity|]. split; [|done].
        intros _. by rewrite lookup_insert_eq.
      * apply Hafter.
      * intros _. split; [by rewrite lookup_insert_eq|].
        intros track Hin. rewrite !in_app_iff. right. right. by apply Htracks.
      * by rewrite sends_app, Htd.
  - intros key w url fd Hin.
    assert (Hs : In (EvXhrSend url fd) (sends (trace (uploadVideo key w)))).
    { apply filter_In. by split. }
    destruct (uploadVideo_sends key w) as [Hnil|(k & video & w' & Hk & Hid & Heq)].
    + rewrite Hnil in Hs. destruct Hs.
    + rewrite Heq in Hs. apply filter_In in Hs as [Hs _].
      exists k, video. split; [done|]. split; [done|].
      exact (run_sends_payload _ _ _ _ (upload_run _ _ _) _ _ Hs).
Qed.

(** ** More on the local store *)

(** Among the records of a keyed store, [find] by id returns the record
    under that id. *)
Lemma find_keyed key (s : gmap string Clip) video :
  keyed s -> s !! key = Some video ->
  List.find (has_id key) (map_to_list s).*2 = Some video.
Proof.
  intros Hkeyed Hkey.
  destruct (List.find _ _) as [video'|] eqn:Hfind.
  - apply find_stored in Hfind as (k & Hk & Hid).
    rewrite <- (Hkeyed _ _ Hk) in Hk. rewrite Hid in Hk. congruence.
  - exfalso. assert (Hin : In video (map_to_list s).*2).
    { apply list_elem_of_In, list_elem_of_fmap. exists (key, video).
      split; [done|]. by apply elem_of_map_to_list. }
    pose proof (find_none _ _ Hfind video Hin) as Hno.
    unfold has_id in Hno. rewrite (Hkeyed _ _ Hkey) in Hno.
    by rewrite String.eqb_refl in Hno.
Qed.

(** X1. A recording that [saveVideo] has saved is what a later
    [getVideos] finds under the id returned: a record with the blob saved,
    the second clock reading as [createdAt] and [uploaded = false]; no other
    record listed has that id, and the records that were there under other
    ids are still listed. *)
Theorem saveVideo_then_getVideos b w key videos :
  keyed (store w) ->
  result (saveVideo b w) = inr key ->
  result (getVideos (final (saveVideo b w))) = inr videos ->
  let video := mkClip key b (Date_now (env w) (S (clock_reads w))) false in
  key = "video-" +:+ decimal (Date_now (env w) (clock_reads w)) /\
  List.find (has_id key) videos = Some video /\
  (forall c, In c videos -> id c = key -> c = video) /\
  (forall k c, k <> key -> store w !! k = Some c -> In c videos).
Proof.
  intros Hkeyed. run_idb.
  destruct (idb_fault (env w) (idb_requests w)); step_idb; [discriminate|].
  intros [= <-].
  destruct (idb_fault (env w) (S (idb_requests w))); step_idb; [discriminate|].
  intros [= <-]. cbn [id].
  set (key := "video-" +:+ decimal (Date_now (env w) (clock_reads w))).
  set (video := mkClip key b _ false).
  assert (Hk' : keyed (<[key := video]> (store w))) by by apply (put_keyed _ video).
  split; [done|]. split; [|split].
  - apply find_keyed; [done|]. by rewrite lookup_insert_eq.
  - intros c Hin Hid.
    apply list_elem_of_In, list_elem_of_fmap in Hin as ([k c'] & -> & Hin).
    apply elem_of_map_to_list in Hin. cbn [snd] in *.
    rewrite <- (Hk' _ _ Hin), Hid, lookup_insert_eq in Hin. congruence.
  - intros k c Hne Hk. apply list_elem_of_In, list_elem_of_fmap. exists (k, c).
    split; [done|]. apply elem_of_map_to_list. by rewrite lookup_insert_ne.
Qed.

(** X2. A call into [db.js] that throws has thrown the storage failure
    and has left the store as it was. *)
Theorem failed_call_changes_nothing c w e :
  result (call c w) = inl e ->
  e = storage_failure /\ store (final (call c w)) = store w.
Proof.
  destruct c; run_idb.
  - destruct (idb_fault (env w) (idb_requests w)); step_idb; [|discriminate].
    by intros [= <-].
  - destruct (idb_fault (env w) (idb_requests w)); step_idb; [|discriminate].
    by intros [= <-].
  - destruct (idb_fault (env w) (idb_requests w)); step_idb; [|discriminate].
    by intros [= <-].
  - destruct (idb_fault (env w) (idb_requests w)); step_idb; [by intros [= <-]|].
    destruct (store w !! key) as [video|]; step_idb; [|discriminate].
    destruct (idb_fault (env w) (S (idb_requests w))); step_idb; [|discriminate].
    by intros [= <-].
Qed.

(** X3. [deleteVideo] removes the record under the id and no other; on
    an id that is not in the store it changes nothing, and so does a second
    deletion after one that succeeded. *)
Theorem deleteVideo_removes_one key w :
  let o := deleteVideo key w in
  (result o = inr tt -> store (final o) !! key = None) /\
  (forall k, k <> key -> store (final o) !! k = store w !! k) /\
  (store w !! key = None -> store (final o) = store w) /\
  (result o = inr tt ->
   store (final (deleteVideo key (final o))) = store (final o)).
Proof.
  run_idb.
  destruct (idb_fault (env w) (idb_requests w)); step_idb.
  { repeat split; try done. }
  split; [|split; [|split]].
  - intros _. apply lookup_delete_eq.
  - intros k Hk. by apply lookup_delete_ne.
  - intros Hnone. by apply delete_id.
  - intros _.
    destruct (idb_fault (env w) (S (idb_requests w))); step_idb; [done|].
    apply delete_id, lookup_delete_eq.
Qed.

(** X4. [getVideos] leaves the store as it is and lists the records of
    the store, each once: a record is listed exactly when it is stored, and
    the list is as long as the store is large. *)
Theorem getVideos_lists_the_store w videos :
  result (getVideos w) = inr videos ->
  store (final (getVideos w)) = store w /\
  (forall c, In c videos <-> exists k, store w !! k = Some c) /\
  List.length videos = size (store w) /\
  (keyed (store w) -> NoDup (List.map id videos)).
Proof.
  run_idb.
  destruct (idb_fault (env w) (idb_requests w)); step_idb; [discriminate|].
  intros [= <-]. split; [done|]. split; [|split].
  - intros c. rewrite <- list_elem_of_In, list_elem_of_fmap. split.
    + intros ([k c'] & -> & Hin). exists k. by apply elem_of_map_to_list.
    + intros (k & Hk). exists (k, c). split; [done|]. by apply elem_of_map_to_list.
  - by rewrite length_fmap, length_map_to_list.
  - intros Hkeyed.
    replace (List.map id (map_to_list (store w)).*2) with (map_to_list (store w)).*1.
    + apply NoDup_fst_map_to_list.
    + rewrite <- list_fmap_compose. apply list_fmap_ext.
      intros i [k c] Hin%list_elem_of_lookup_2%elem_of_map_to_list. cbn.
      symmetry. by apply Hkeyed.
Qed.

(** ** More on [uploadVideo] *)

Ltac run_app :=
  unfold uploadVideo, handleDelete, upload_attempt, upload_failed, upload_cleanup,
    isOnline, try_finally, try_catch, loadVideos, emit, throw;
  run_idb.

(** What an upload leaves of the world it started in. *)
Lemma upload_frame blob rc w t r w' :
  uploadToCloudinary blob rc w = mkOutcome t r w' ->
  store w' = store w /\ env w' = env w /\ idb_requests w' = idb_requests w.
Proof.
  intros Hup. pose proof (run_frame _ _ _ _ (upload_run blob rc w)) as Hf.
  rewrite Hup in Hf. cbn [final] in Hf. tauto.
Qed.

Lemma bind_emit {A} ev (k : unit -> M A) w :
  (emit ev ≫= k) w = after_events [ev] (k tt w).
Proof. reflexivity. Qed.

Lemma bind_isOnline {A} (k : bool -> M A) w :
  (isOnline ≫= k) w
  = after_events [EvIsOnline (navigator_onLine (env w) (onLine_reads w))]
                 (k (navigator_onLine (env w) (onLine_reads w)) (checked w)).
Proof. reflexivity. Qed.

Lemma after_events_app {A} t t' (o : Outcome A) :
  after_events t (after_events t' o) = after_events (t ++ t') o.
Proof. destruct o. cbn. by rewrite app_assoc. Qed.

(** [uploadVideo] online, by its three blocks. *)
Lemma uploadVideo_online key w :
  navigator_onLine (env w) (onLine_reads w) = true ->
  uploadVideo key w
  = after_events (upload_opening key)
      (try_finally (try_catch (upload_attempt key) upload_failed) upload_cleanup
                   (checked w)).
Proof.
  intros Hon. unfold uploadVideo. rewrite bind_isOnline, Hon. cbn [negb].
  rewrite !bind_emit, !after_events_app. reflexivity.
Qed.

Lemma try_finally_trace {A} (body : M A) cleanup w :
  trace (try_finally body cleanup w)
  = (trace (body w) ++ trace (cleanup (final (body w))))%list.
Proof.
  unfold try_finally. destruct (body w) as [t r w']. cbn [trace result final].
  by destruct (cleanup w').
Qed.

Lemma try_finally_result {A} (body : M A) cleanup w :
  result (try_finally body cleanup w) = result (body w).
Proof.
  unfold try_finally. destruct (body w) as [t r w']. cbn [trace result final].
  by destruct (cleanup w').
Qed.

Lemma try_finally_store {A} (body : M A) w :
  store (final (try_finally body upload_cleanup w)) = store (final (body w)).
Proof. unfold try_finally. by destruct (body w) as [t r w']. Qed.

Lemma uploadVideo_offline key w :
  navigator_onLine (env w) (onLine_reads w) = false ->
  uploadVideo key w
  = mkOutcome [EvIsOnline false; EvAlert OFFLINE_ALERT] (inr tt) (checked w).
Proof. intros Hoff. unfold uploadVideo. by rewrite bind_isOnline, Hoff. Qed.



(** The store after [uploadVideo]: as before, or with the record under
    the id marked as uploaded. *)
Lemma uploadVideo_store key w :
  keyed (store w) ->
  let o := uploadVideo key w in
  store (final o) = store w \/
  exists video t r w',
    store w !! key = Some video /\
    navigator_onLine (env w) (onLine_reads w) = true /\
    uploadToCloudinary (BlobRef (blob video)) 0 (listed w) = mkOutcome t (inr r) w' /\
    store (final o) = <[key := set_uploaded video true]> (store w).
Proof.
  intros Hkeyed. cbv zeta.
  destruct (navigator_onLine (env w) (onLine_reads w)) eqn:Hon.
  2:{ left. by rewrite (uploadVideo_offline key w Hon). }
  rewrite (uploadVideo_online key w Hon), final_after_events, try_finally_store.
  unfold checked. run_app.
  destruct (idb_fault (env w) (idb_requests w)); step_idb; [by left|].
  destruct (List.find _ _) as [video|] eqn:Hfind; step_idb; [|by left].
  apply find_stored in Hfind as (k & Hk & Hid).
  assert (k = key) as -> by (by rewrite <- (Hkeyed _ _ Hk)).
  fold (listed w).
  destruct (uploadToCloudinary _ _ _) as [t [e|r] w'] eqn:Hup;
    destruct (upload_frame _ _ _ _ _ _ Hup) as (Hs & He & Hn); step_idb;
    [left; by rewrite Hs|].
  destruct (success r); step_idb; [|left; by rewrite Hs].
  destruct (idb_fault (env w') (idb_requests w')); step_idb; [left; by rewrite Hs|].
  rewrite Hs. cbn [listed store with_store]. rewrite Hk. step_idb.
  destruct (idb_fault (env w') (S (idb_requests w'))); step_idb; [by left|].
  right. exists video, t, r, w'. split; [done|]. split; [done|]. split; [done|].
  cbn [set_uploaded id]. rewrite Hid.
  by destruct (idb_fault (env w') (S (S (idb_requests w')))); step_idb.
Qed.

(** X5. [uploadVideo] never throws: whatever fails (the listing, the
    lookup, the upload, the update of the record) is caught and shown in an
    alert. Offline, it only shows the offline alert: no request, no access
    to the store, no upload marked as running. Online, it marks the upload as
    running first and always ends by clearing that mark and scheduling the
    progress to be cleared. *)
Theorem uploadVideo_never_throws key w :
  let o := uploadVideo key w in
  result o = inr tt /\
  (navigator_onLine (env w) (onLine_reads w) = false ->
   o = mkOutcome [EvIsOnline false; EvAlert OFFLINE_ALERT] (inr tt) (checked w)) /\
  (navigator_onLine (env w) (onLine_reads w) = true ->
   exists t, trace o = (upload_opening key ++ t ++ upload_closing)%list).
Proof.
  cbv zeta. destruct (navigator_onLine (env w) (onLine_reads w)) eqn:Hon.
  - rewrite (uploadVideo_online key w Hon).
    rewrite result_after_events, trace_after_events, try_finally_result, try_finally_trace.
    split; [|split; [done|intros _; by eexists]].
    unfold try_catch. destruct (upload_attempt key (checked w)) as [t [e|[]] w']; [|done].
    reflexivity.
  - by rewrite (uploadVideo_offline key w Hon).
Qed.

(** X6. [uploadVideo] never costs a record: every record of a keyed
    store is still there afterwards, under the same key, with the same [id],
    [blob] and [createdAt]; a record under another id is unchanged, and the
    flag of the record under the id is as it was or [true]. No key is added. *)
Theorem uploadVideo_keeps_every_record key w :
  keyed (store w) ->
  let o := uploadVideo key w in
  (forall k c, store w !! k = Some c ->
     exists c', store (final o) !! k = Some c' /\
                id c' = id c /\ blob c' = blob c /\ createdAt c' = createdAt c /\
                (uploaded c' = uploaded c \/ uploaded c' = true) /\
                (k <> key -> c' = c)) /\
  (forall k, store w !! k = None -> store (final o) !! k = None).
Proof.
  intros Hkeyed. cbv zeta.
  destruct (uploadVideo_store key w Hkeyed)
    as [->|(video & t & r & w' & Hk & _ & _ & ->)].
  { split; [|done]. intros k c Hc. exists c. by repeat split; try left. }
  split.
  - intros k c Hc. destruct (decide (k = key)) as [->|Hne].
    + rewrite lookup_insert_eq. eexists. split; [done|].
      assert (c = video) as -> by congruence. repeat split; try done. by right.
    + rewrite lookup_insert_ne by done. exists c. by repeat split; try left.
  - intros k Hnone. rewrite lookup_insert_ne; [done|]. congruence.
Qed.


(** ** More on the upload pipeline *)

Lemma prefix_lower u s :
  String.prefix u s = true -> String.prefix (toLowerCase u) (toLowerCase s) = true.
Proof.
  revert s. induction u as [|a u IH]; intros [|b s]; cbn [String.prefix toLowerCase];
    try done.
  destruct (ascii_dec a b) as [->|]; [|done]. intros Hp.
  destruct (ascii_dec (lower_unit b) (lower_unit b)); [|done]. by apply IH.
Qed.

Lemma includes_lower s u :
  includes s u = true -> includes (toLowerCase s) (toLowerCase u) = true.
Proof.
  induction s as [|c s IH]; cbn [includes toLowerCase].
  - rewrite !orb_false_r. apply (prefix_lower u "").
  - intros [Hp|Hi]%orb_true_iff; apply orb_true_iff.
    + left. apply (prefix_lower u (String c s) Hp).
    + right. by apply IH.
Qed.

(** X8. Only four patterns decide whether an error is retried: an error
    is retryable exactly when its message, in lower case, contains
    [network error], [failed to fetch], [timeout] or [connection]. The
    patterns [ECONNRESET] and [ETIMEDOUT] of the list never match, the
    message being compared in lower case: an error whose message is
    [ECONNRESET] or [ETIMEDOUT] is not retried. *)
Theorem retryable_by_four_patterns :
  (forall error,
     isRetryableError error = true <->
     exists msg,
       In msg ["network error"; "failed to fetch"; "timeout"; "connection"] /\
       includes (toLowerCase (message error)) msg = true) /\
  isRetryableError (new_Error "ECONNRESET") = false /\
  isRetryableError (new_Error "ETIMEDOUT") = false.
Proof.
  split; [|by split].
  intros error. rewrite isRetryableError_spec. unfold retryableMessages. split.
  - intros (msg & Hin & Hinc). cbn [In] in Hin.
    destruct Hin as [<-|[<-|[<-|[<-|[<-|[<-|[]]]]]]];
      try (eexists; split; [|exact Hinc]; cbn [In]; tauto).
    all: by rewrite upper_case_patterns_never_match in Hinc.
  - intros (msg & Hin & Hinc). exists msg. split; [|done]. cbn [In] in *. tauto.
Qed.

(** X9. The four patterns are matched whatever the case of the message:
    a message that contains a text whose lower case is one of them is
    retryable. *)
Theorem retryable_in_any_case error text :
  includes (message error) text = true ->
  In (toLowerCase text) ["network error"; "failed to fetch"; "timeout"; "connection"] ->
  isRetryableError error = true.
Proof.
  intros Hinc Hin. apply isRetryableError_spec. exists (toLowerCase text). split.
  - unfold retryableMessages. cbn [In] in *. tauto.
  - by apply includes_lower.
Qed.

(** An invocation that passes the three checks and whose request
    succeeds returns the result. *)
Lemma upload_succeeds blob rc w v r :
  configured (config (env w)) = true ->
  validateVideo blob = inr v -> valid v = true ->
  navigator_onLine (env w) (onLine_reads w) = true ->
  attempt (xhr_outcome (env w) (xhr_sends w)) = inr r ->
  uploadToCloudinary blob rc w = mkOutcome (through_request blob w) (inr r) (sent w).
Proof.
  intros Hc Hv Hvalid Hon Ha. by rewrite upload_unfold, Hc, Hv, Hvalid, Hon, Ha.
Qed.

(** An invocation that passes the first two checks offline throws the
    offline error. *)
Lemma upload_offline blob rc w v :
  configured (config (env w)) = true ->
  validateVideo blob = inr v -> valid v = true ->
  navigator_onLine (env w) (onLine_reads w) = false ->
  uploadToCloudinary blob rc w
  = mkOutcome [EvConfigCheck; EvValidate blob; EvIsOnline false]
              (inl (new_Error OFFLINE)) (checked w).
Proof. intros Hc Hv Hvalid Hoff. by rewrite upload_unfold, Hc, Hv, Hvalid, Hoff. Qed.

Lemma run_events blob rc w o :
  Run blob rc w o -> forall ev, In ev (trace o) -> is_pipeline_event ev = true.
Proof.
  induction 1; rewrite ?trace_after_events; cbn [trace]; intros ev Hin.
  all: rewrite ?in_app_iff in Hin; unfold through_request, request, retry_log in Hin;
    cbn [In] in Hin.
  all: repeat match goal with
         | H : _ \/ _ |- _ => destruct H
         | H : False |- _ => destruct H
         | H : _ = ?x |- is_pipeline_event ?x = true => rewrite <- H
         end; try reflexivity.
  by apply IHRun.
Qed.

Lemma run_cursor blob rc w o :
  Run blob rc w o ->
  xhr_sends (final o) = (xhr_sends w + List.length (sends (trace o)))%nat.
Proof.
  induction 1; rewrite ?final_after_events, ?trace_after_events; cbn [trace final].
  1-4: cbn; lia.
  1-2: cbn; lia.
  rewrite sends_retry, IHRun. cbn. lia.
Qed.

Lemma run_same_request blob rc w o :
  Run blob rc w o ->
  sends (trace o)
  = repeat (request (config (env w)) blob) (List.length (sends (trace o))).
Proof.
  induction 1; rewrite ?trace_after_events; cbn [trace]; try reflexivity.
  rewrite sends_retry. cbn [List.length repeat]. f_equal. exact IHRun.
Qed.

(** X10. The pipeline is a transfer and nothing else: an upload leaves
    the store, the clock and the count of storage requests as they were,
    causes no event but its own checks, requests, log lines and delays, and
    consumes one request outcome for each request it sends. *)
Theorem pipeline_never_touches_the_store blob rc w :
  let o := uploadToCloudinary blob rc w in
  store (final o) = store w /\
  clock_reads (final o) = clock_reads w /\
  idb_requests (final o) = idb_requests w /\
  (forall ev, In ev (trace o) -> is_pipeline_event ev = true) /\
  xhr_sends (final o) = (xhr_sends w + List.length (sends (trace o)))%nat.
Proof.
  cbv zeta. pose proof (upload_run blob rc w) as HR.
  destruct (run_frame _ _ _ _ HR) as (Hs & _ & Hc & Hi).
  repeat split; try done.
  - by apply (run_events _ _ _ _ HR).
  - by apply (run_cursor _ _ _ _ HR).
Qed.

(** X11. Every request of one upload, the first and each retry, is the
    same request: the same URL, built from the cloud name, and the same form
    data (the payload, the upload preset, the resource type [video]). *)
Theorem retries_resend_the_same_request blob rc w :
  let o := uploadToCloudinary blob rc w in
  sends (trace o)
  = repeat (EvXhrSend ("https://api.cloudinary.com/v1_1/"
                         +:+ env_text (VITE_CLOUDINARY_CLOUD_NAME (config (env w)))
                         +:+ "/video/upload")
                      (mkFormData blob
                         (env_text (VITE_CLOUDINARY_UPLOAD_PRESET (config (env w))))
                         "video"))
           (List.length (sends (trace o))).
Proof. exact (run_same_request _ _ _ _ (upload_run blob rc w)). Qed.

(** X12. Two requests that fail with retryable errors and a third that
    succeeds: the upload returns the result of the third request, after
    delays of 2000 and 4000 ms. *)
Theorem upload_succeeds_on_third_request blob w v e0 e1 r :
  configured (config (env w)) = true ->
  validateVideo blob = inr v -> valid v = true ->
  (forall k, (k < 3)%nat -> navigator_onLine (env w) (k + onLine_reads w) = true) ->
  attempt (xhr_outcome (env w) (0 + xhr_sends w)) = inl e0 ->
  attempt (xhr_outcome (env w) (1 + xhr_sends w)) = inl e1 ->
  attempt (xhr_outcome (env w) (2 + xhr_sends w)) = inr r ->
  isRetryableError e0 = true -> isRetryableError e1 = true ->
  let o := uploadToCloudinary blob 0 w in
  result o = inr r /\ sleeps (trace o) = [2000; 4000] /\
  List.length (sends (trace o)) = 3%nat.
Proof.
  intros Hc Hv Hvalid Hon H0 H1 H2 R0 R1. cbv zeta.
  assert (L1 : 0 < MAX_RETRIES) by (unfold MAX_RETRIES; lia).
  assert (L2 : 0 + 1 < MAX_RETRIES) by (unfold MAX_RETRIES; lia).
  rewrite (upload_retries blob 0 w v e0 Hc Hv Hvalid (Hon 0%nat ltac:(lia)) H0 L1 R0).
  rewrite (upload_retries blob (0 + 1) (sent w) v e1
             Hc Hv Hvalid (Hon 1%nat ltac:(lia)) H1 L2 R1).
  rewrite (upload_succeeds blob (0 + 1 + 1) (sent (sent w)) v r
             Hc Hv Hvalid (Hon 2%nat ltac:(lia)) H2).
  repeat split.
Qed.

(** X13. Going offline between two attempts ends the upload: when the
    reachability signal reads offline at the check of a retry, the upload
    throws the offline error after the one delay, without sending again. The
    text of that error contains [connection] and would pass for retryable,
    but it is thrown outside the [try] block and is never retried. *)
Theorem offline_during_retry_ends_the_upload blob rc w v e :
  configured (config (env w)) = true ->
  validateVideo blob = inr v -> valid v = true ->
  navigator_onLine (env w) (onLine_reads w) = true ->
  attempt (xhr_outcome (env w) (xhr_sends w)) = inl e ->
  rc < MAX_RETRIES -> isRetryableError e = true ->
  navigator_onLine (env w) (1 + onLine_reads w) = false ->
  let o := uploadToCloudinary blob rc w in
  result o = inl (new_Error OFFLINE) /\
  sleeps (trace o) = [RETRY_DELAY * (rc + 1)] /\
  sends (trace o) = [request (config (env w)) blob] /\
  isRetryableError (new_Error OFFLINE) = true.
Proof.
  intros Hc Hv Hvalid Hon Ha Hlt Hr Hoff. cbv zeta.
  rewrite (upload_retries blob rc w v e Hc Hv Hvalid Hon Ha Hlt Hr).
  rewrite (upload_offline blob (rc + 1) (sent w) v Hc Hv Hvalid Hoff).
  repeat split.
Qed.

(** X14. How a response with a status from 200 to 299 is read. A JSON
    body other than [null] makes a success, with [url] and [publicId] the
    properties [secure_url] and [public_id] of the body, [undefined] when the
    body has none: the status decides, not the presence of a URL. A body that
    is not JSON throws the [SyntaxError] of the parser, and the body [null]
    a [TypeError]. *)
Theorem ok_response_is_success code :
  200 <= code -> code < 300 ->
  (forall v, v <> JNull ->
     attempt (XhrLoad code (Json v))
     = inr (mkUploadResult true (own_property v "secure_url")
                           (own_property v "public_id") v)) /\
  (forall msg, attempt (XhrLoad code (NotJson msg)) = inl (mkExn KSyntaxError msg)) /\
  attempt (XhrLoad code (Json JNull)) = inl (nullish_read "null" "secure_url").
Proof.
  intros Hlo Hhi.
  assert (Hok : (200 <=? code) && (code <? 300) = true).
  { apply andb_true_iff. split; [by apply N.leb_le|by apply N.ltb_lt]. }
  unfold attempt, settle, read_response, response_json.
  cbn [mbind completion_bind ok body]. rewrite Hok. cbn [negb mbind completion_bind].
  split; [|by split].
  by intros [| | | | |props] Hv.
Qed.

(** X15. The three ways a request is rejected. An aborted request ends
    the upload at once with [Upload cancelled], whatever the retry count. A
    network error and a timeout are retried as long as a retry is left: the
    upload sleeps [RETRY_DELAY * (rc + 1)] and goes on. *)
Theorem rejected_requests blob rc w v :
  configured (config (env w)) = true ->
  validateVideo blob = inr v -> valid v = true ->
  navigator_onLine (env w) (onLine_reads w) = true ->
  let o := uploadToCloudinary blob rc w in
  (xhr_outcome (env w) (xhr_sends w) = XhrAbort ->
   o = mkOutcome (through_request blob w) (inl (new_Error "Upload cancelled")) (sent w)) /\
  (xhr_outcome (env w) (xhr_sends w) = XhrError \/
   xhr_outcome (env w) (xhr_sends w) = XhrTimeout ->
   rc < MAX_RETRIES ->
   o = after_events
         (through_request blob w ++ [retry_log rc; EvSleep (RETRY_DELAY * (rc + 1))])
         (uploadToCloudinary blob (rc + 1) (sent w))).
Proof.
  intros Hc Hv Hvalid Hon. cbv zeta. split.
  - intros Hx. apply (upload_fails_at_once blob rc w v _ Hc Hv Hvalid Hon).
    + by rewrite Hx.
    + by right.
  - intros [Hx|Hx] Hlt.
    + apply (upload_retries blob rc w v (new_Error "Network error during upload")
               Hc Hv Hvalid Hon); [by rewrite Hx|done|done].
    + apply (upload_retries blob rc w v
               (new_Error "Upload timeout. Please try again with a shorter video")
               Hc Hv Hvalid Hon); [by rewrite Hx|done|done].
Qed.

(** ** The recorder's clock face, chunks and deletions *)

Lemma to_uint_not_Nil n : N.to_uint n <> Decimal.Nil.
Proof.
  intros Hnil. pose proof (DecimalN.Unsigned.of_to n) as Hn. rewrite Hnil in Hn.
  cbn in Hn. subst n. discriminate Hnil.
Qed.

Lemma decimal_digits n : decimal n = NilEmpty.string_of_uint (N.to_uint n).
Proof.
  unfold decimal, NilZero.string_of_uint.
  destruct (N.to_uint n) eqn:Hn; try reflexivity. by destruct (to_uint_not_Nil n).
Qed.

Lemma append_String c s t : String c s +:+ t = String c (s +:+ t).
Proof. reflexivity. Qed.

Lemma digits_no_colon d rest :
  before_colon (NilEmpty.string_of_uint d +:+ String ":" rest) = NilEmpty.string_of_uint d /\
  after_colon (NilEmpty.string_of_uint d +:+ String ":" rest) = Some rest.
Proof.
  induction d as [|d [Hb Ha]|d [Hb Ha]|d [Hb Ha]|d [Hb Ha]|d [Hb Ha]|d [Hb Ha]
                 |d [Hb Ha]|d [Hb Ha]|d [Hb Ha]|d [Hb Ha]];
    cbn [NilEmpty.string_of_uint]; [by split|..];
    rewrite append_String; cbn [before_colon after_colon]; cbn [Ascii.eqb Bool.eqb];
    rewrite Hb, Ha; by split.
Qed.

Lemma zeros_digits k d :
  string_of_list_ascii (repeat "0"%char k) +:+ NilEmpty.string_of_uint d
  = NilEmpty.string_of_uint (Nat.iter k Decimal.D0 d).
Proof.
  induction k as [|k IH]; [done|].
  cbn [repeat string_of_list_ascii Nat.iter NilEmpty.string_of_uint].
  by rewrite append_String, IH.
Qed.

Lemma of_uint_zeros k d : N.of_uint (Nat.iter k Decimal.D0 d) = N.of_uint d.
Proof.
  induction k as [|k IH]; [done|]. cbn [Nat.iter].
  rewrite <- DecimalN.Unsigned.of_uint_norm. cbn [Decimal.unorm].
  by rewrite DecimalN.Unsigned.of_uint_norm.
Qed.

(** A padded number, as digits. *)
Lemma padStart_decimal n k :
  padStart (decimal n) k "0"
  = NilEmpty.string_of_uint
      (Nat.iter (k - String.length (decimal n)) Decimal.D0 (N.to_uint n)).
Proof. unfold padStart. by rewrite <- zeros_digits, <- decimal_digits. Qed.

Lemma read_padded n k : read_decimal (padStart (decimal n) k "0") = Some n.
Proof.
  rewrite padStart_decimal. unfold read_decimal. rewrite NilEmpty.usu. cbn.
  by rewrite of_uint_zeros, DecimalN.Unsigned.of_to.
Qed.

(** [formatTime] loses nothing: the text reads back as the seconds. *)
Lemma parseTime_formatTime seconds : parseTime (formatTime seconds) = Some seconds.
Proof.
  unfold parseTime, formatTime. cbv zeta.
  rewrite (padStart_decimal (seconds / 60)).
  destruct (digits_no_colon
              (Nat.iter (2 - String.length (decimal (seconds / 60))) Decimal.D0
                        (N.to_uint (seconds / 60)))
              (padStart (decimal (seconds mod 60)) 2 "0")) as [Hb Ha].
  change (":" +:+ padStart (decimal (seconds mod 60)) 2 "0")
    with (String ":" (padStart (decimal (seconds mod 60)) 2 "0")).
  rewrite Hb, Ha. cbn [mbind option_bind].
  rewrite <- padStart_decimal, !read_padded. f_equal.
  rewrite N.mul_comm. symmetry. apply N.div_mod. lia.
Qed.

Lemma length_append s t :
  String.length (s +:+ t) = (String.length s + String.length t)%nat.
Proof. induction s as [|c s IH]; [done|]. rewrite append_String. cbn. by rewrite IH. Qed.

Lemma padStart_two_digits n :
  n < 100 -> String.length (padStart (decimal n) 2 "0") = 2%nat.
Proof.
  intros Hn. rewrite <- (N2Nat.id n).
  assert (Hall : forall m, (m < 100)%nat ->
                 String.length (padStart (decimal (N.of_nat m)) 2 "0") = 2%nat).
  { intros m Hm. do 100 (destruct m as [|m]; [vm_compute; reflexivity|]). lia. }
  apply Hall. lia.
Qed.

(** X16. The recording time shown, [mm:ss], determines the seconds: the
    text reads back as the duration (minutes before the colon, seconds after
    it), two durations are never shown alike, and the text has exactly five
    characters as long as the recording is shorter than 100 minutes. *)
Theorem formatTime_shows_the_duration seconds :
  parseTime (formatTime seconds) = Some seconds /\
  (forall other, formatTime other = formatTime seconds -> other = seconds) /\
  (seconds < 6000 -> String.length (formatTime seconds) = 5%nat).
Proof.
  split; [apply parseTime_formatTime|]. split.
  - intros other Heq. apply (f_equal parseTime) in Heq.
    rewrite !parseTime_formatTime in Heq. congruence.
  - intros Hlt. unfold formatTime. cbv zeta.
    rewrite !length_append, !padStart_two_digits; [done| |].
    + pose proof (N.mod_lt seconds 60). lia.
    + apply N.Div0.div_lt_upper_bound. lia.
Qed.

Lemma recorded_app datas data :
  recorded (datas ++ [data]) = ondataavailable data (recorded datas).
Proof. unfold recorded. by rewrite fold_left_app. Qed.

Lemma new_Blob_push chunks data type :
  blob_size (new_Blob (push chunks data) type)
  = blob_size (new_Blob chunks type) + blob_size data.
Proof.
  unfold new_Blob, push. cbn [blob_size].
  induction chunks as [|c chunks IH]; cbn; [lia|]. rewrite IH. lia.
Qed.

(** X17. Dropping the empty [dataavailable] events loses no data: the
    chunks kept are the non-empty ones in the order they came, and the blob
    that [onstop] builds from them is a [video/webm] blob as large as all the
    data of the recording together. Validation therefore never objects to
    its type: it is valid exactly when it is not empty and not over the
    limit. *)
Theorem recording_keeps_all_data datas :
  let total := foldr (fun data sum => blob_size data + sum) 0 datas in
  let blob := new_Blob (recorded datas) "video/webm" in
  recorded datas = List.filter (fun data => 0 <? blob_size data) datas /\
  blob = mkBlob total "video/webm" /\
  validateVideo (BlobRef blob)
  = inr (mkValidation (negb (total =? 0) && (total <=? MAX_FILE_SIZE))
           ((if total =? 0 then [EMPTY_FILE] else [])
              ++ (if MAX_FILE_SIZE <? total then [TOO_LARGE total] else []))%list).
Proof.
  cbv zeta.
  assert (Hfilter :
    recorded datas = List.filter (fun data => 0 <? blob_size data) datas).
  { induction datas as [|data datas IH] using rev_ind; [done|].
    rewrite recorded_app, IH, List.filter_app. unfold ondataavailable, push. cbn.
    destruct (0 <? blob_size data); [done|]. by rewrite app_nil_r. }
  assert (Hblob :
    new_Blob (recorded datas) "video/webm"
    = mkBlob (foldr (fun data sum => blob_size data + sum) 0 datas) "video/webm").
  { rewrite Hfilter. clear Hfilter. unfold new_Blob. f_equal.
    induction datas as [|data datas IH]; [done|]. cbn.
    destruct (0 <? blob_size data) eqn:Hpos; cbn; rewrite IH; [done|].
    apply N.ltb_ge in Hpos. lia. }
  split; [done|]. split; [done|]. rewrite Hblob.
  set (total := foldr _ _ _).
  unfold validateVideo. cbn [absent size_of type_of blob_size blob_type].
  cbn [mbind completion_bind].
  replace (startsWith "video/webm" "video/") with true by (vm_compute; reflexivity).
  cbn [negb]. unfold push.
  destruct (total =? 0) eqn:Hzero.
  - apply N.eqb_eq in Hzero.
    replace (MAX_FILE_SIZE <? total) with false
      by (symmetry; apply N.ltb_ge; rewrite Hzero; vm_compute; discriminate).
    done.
  - destruct (MAX_FILE_SIZE <? total) eqn:Hbig; cbn.
    + replace (total <=? MAX_FILE_SIZE) with false; [done|].
      symmetry. apply N.leb_gt. by apply N.ltb_lt.
    + replace (total <=? MAX_FILE_SIZE) with true; [done|].
      symmetry. apply N.leb_le. by apply N.ltb_ge.
Qed.


(** A record that is not in a keyed store is not found in its listing. *)
Lemma find_absent key (s : gmap string Clip) :
  keyed s -> s !! key = None -> List.find (has_id key) (map_to_list s).*2 = None.
Proof.
  intros Hkeyed Hnone.
  destruct (List.find _ _) as [video|] eqn:Hfind; [|done].
  apply find_stored in Hfind as (k & Hk & Hid).
  rewrite <- (Hkeyed _ _ Hk) in Hk. rewrite Hid in Hk. congruence.
Qed.

(** X19. A failed upload is reported and costs nothing: when the record
    is not in the store, or when the pipeline throws, [uploadVideo] logs the
    error, shows the text for it in an alert, leaves the store as it was and
    ends like every upload. Nothing is sent for a record that is not there. *)
Theorem uploadVideo_reports_failure key w :
  keyed (store w) ->
  navigator_onLine (env w) (onLine_reads w) = true ->
  idb_fault (env w) (idb_requests w) = false ->
  let o := uploadVideo key w in
  let reported error :=
    [EvConsoleError "Upload failed:"; EvAlert (failure_text error)] in
  (store w !! key = None ->
   store (final o) = store w /\
   trace o = (upload_opening key
                ++ EvIdb GetAll true
                :: reported (new_Error "Video not found in local storage")
                ++ upload_closing)%list) /\
  (forall video t e w',
     store w !! key = Some video ->
     uploadToCloudinary (BlobRef (blob video)) 0 (listed w) = mkOutcome t (inl e) w' ->
     store (final o) = store w /\
     trace o = (upload_opening key
                  ++ EvIdb GetAll true :: t ++ reported e ++ upload_closing)%list).
Proof.
  intros Hkeyed Hon Hok. cbv zeta.
  rewrite (uploadVideo_online key w Hon).
  rewrite final_after_events, trace_after_events, try_finally_store, try_finally_trace.
  unfold checked. run_app. rewrite Hok. step_idb. split.
  - intros Hnone. rewrite (find_absent key (store w) Hkeyed Hnone). step_idb.
    split; [done|]. by unfold upload_opening, upload_closing.
  - intros video t e w' Hk Hup.
    rewrite (find_keyed key (store w) video Hkeyed Hk). step_idb.
    fold (listed w). rewrite Hup. step_idb.
    destruct (upload_frame _ _ _ _ _ _ Hup) as (Hs & He & Hn).
    rewrite Hs. split; [done|].
    unfold upload_opening, upload_closing. cbn [app]. by rewrite <- !app_assoc.
Qed.

(** ** More on the stop handler *)

(** X20. A stop handler that fails skips the whole clean-up: it throws
    only the storage failure (of the write or of the listing), and then the
    chunks are not reset, no track is stopped, the preview and the stream are
    not cleared. A handler that completes ends with the clean-up. *)
Theorem failed_onstop_skips_the_cleanup recorder w :
  let o := onstop recorder w in
  (forall e, result o = inl e ->
     e = storage_failure /\
     forall ev, In ev (teardown recorder) -> ~ In ev (trace o)) /\
  (result o = inr tt ->
     exists pre, trace o = (pre ++ teardown recorder)%list).
Proof.
  cbv zeta. destruct (onstop_unfold recorder w) as [_ H].
  assert (Hclean : forall ev post,
            (forall x, In x post -> exists req ok, x = EvIdb req ok) ->
            In ev (teardown recorder) ->
            ~ In ev (before_write recorder ++ post)%list).
  { intros ev post Hpost Hin Hin'. apply in_app_or in Hin' as [Hb|Hp].
    - assert (Hev : (exists timer, ev = EvClearInterval timer) \/ ev = EvSetRecordingTime 0).
      { unfold before_write in Hb.
        destruct (timerRef recorder) as [timer|]; [destruct (timer =? 0)|];
          cbn in Hb; intuition eauto. }
      unfold teardown in Hin. cbn [In] in Hin.
      destruct Hin as [<-|Hin]; [destruct Hev as [[? Hev]|Hev]; discriminate Hev|].
      apply in_app_or in Hin as [Hin|Hin].
      { apply in_map_iff in Hin as (track & <- & _).
        destruct Hev as [[? Hev]|Hev]; discriminate Hev. }
      apply in_app_or in Hin as [Hin|Hin].
      { destruct (videoRef recorder); [|done]. destruct Hin as [<-|[]].
        destruct Hev as [[? Hev]|Hev]; discriminate Hev. }
      destruct Hin as [<-|[]]. destruct Hev as [[? Hev]|Hev]; discriminate Hev.
    - destruct (Hpost _ Hp) as (req & ok & ->).
      unfold teardown in Hin. cbn [In] in Hin.
      destruct Hin as [Hin|Hin]; [discriminate Hin|].
      apply in_app_or in Hin as [Hin|Hin].
      { apply in_map_iff in Hin as (track & Hin & _). discriminate Hin. }
      apply in_app_or in Hin as [Hin|Hin].
      { destruct (videoRef recorder); [|done]. destruct Hin as [Hin|[]]. discriminate Hin. }
      destruct Hin as [Hin|[]]. discriminate Hin. }
  destruct (idb_fault (env w) (idb_requests w)).
  { destruct H as (-> & -> & _). split; [|discriminate].
    intros e [= <-]. split; [done|]. intros ev Hin. apply Hclean; [|done].
    intros x [<-|[]]. eauto. }
  destruct H as [_ H]. destruct (idb_fault (env w) (S (idb_requests w))).
  { destruct H as (-> & ->). split; [|discriminate].
    intros e [= <-]. split; [done|]. intros ev Hin. apply Hclean; [|done].
    intros x [<-|[<-|[]]]; eauto. }
  destruct H as (-> & ->). split; [discriminate|]. intros _.
  eexists. rewrite !app_assoc. reflexivity.
Qed.

(** X21. A recording without data is kept all the same and can never be
    uploaded: when every data event was empty, the stop handler stores a
    [video/webm] blob of size 0, and an upload of that blob, whenever it is
    tried with the credentials configured, stops at the validation with
    [Video file is empty], before any request; the user is shown that text. *)
Theorem empty_recording_is_kept_but_never_uploaded datas recorder w :
  chunksRef recorder = recorded datas ->
  (forall data, In data datas -> blob_size data = 0) ->
  let video := finalized recorder w in
  blob video = mkBlob 0 "video/webm" /\
  (idb_fault (env w) (idb_requests w) = false ->
   store (final (onstop recorder w)) !! id video = Some video) /\
  (forall rc w',
     configured (config (env w')) = true ->
     uploadToCloudinary (BlobRef (blob video)) rc w'
     = mkOutcome [EvConfigCheck; EvValidate (BlobRef (blob video))]
                 (inl (new_Error EMPTY_FILE)) w') /\
  failure_text (new_Error EMPTY_FILE)
  = "Upload failed: Video file is empty" +:+ LF +:+ LF
      +:+ "Video is saved locally and you can retry later.".
Proof.
  intros Hchunks Hempty. cbv zeta.
  assert (Hblob : blob (finalized recorder w) = mkBlob 0 "video/webm").
  { unfold finalized. cbn [blob]. rewrite Hchunks.
    assert (recorded datas = []) as ->; [|done].
    clear Hchunks. unfold recorded. generalize (@nil Blob).
    induction datas as [|data datas IH]; intros acc; [done|]. cbn [fold_left].
    rewrite IH by (intros d Hd; apply Hempty; by right).
    unfold ondataavailable. by rewrite (Hempty data) by by left. }
  split; [done|]. split; [|split].
  - intros Hok. destruct (onstop_unfold recorder w) as [_ H]. rewrite Hok in H.
    destruct H as [-> _]. apply lookup_insert_eq.
  - intros rc w' Hc. rewrite upload_unfold, Hc, Hblob. cbn [negb]. reflexivity.
  - reflexivity.
Qed.

End Pipeline.

(** ** The development on sample inputs *)

(** The stop handler on two chunks: the record is in the store, not
    uploaded, and the request of a later [uploadVideo] carries its blob. *)
Lemma recording_is_stored_first_witness :
  In (EvXhrSend "https://api.cloudinary.com/v1_1/demo/video/upload"
                (mkFormData (BlobRef sample_blob) "unsigned" "video"))
     (trace (uploadVideo formatBytes_unscaled "video-5"
               (sample_world (sample_env 5 [] [sample_success])
                             {["video-5" := sample_clip false]}))) /\
  exists k video,
    ({["video-5" := sample_clip false]} : gmap string Clip) !! k = Some video /\
    id video = "video-5" /\
    file (mkFormData (BlobRef sample_blob) "unsigned" "video") = BlobRef (blob video).
Proof.
  assert (Hin : In (EvXhrSend "https://api.cloudinary.com/v1_1/demo/video/upload"
                      (mkFormData (BlobRef sample_blob) "unsigned" "video"))
                   (trace (uploadVideo formatBytes_unscaled "video-5"
                             (sample_world (sample_env 5 [] [sample_success])
                                           {["video-5" := sample_clip false]})))).
  { vm_compute. tauto. }
  split; [exact Hin|].
  exact (proj2 (recording_is_stored_first formatBytes_unscaled) _ _ _ _ Hin).
Defined.

(** The stop handler on the sample recorder, event by event. *)
Example onstop_sample_run :
  let o := onstop sample_recorder (sample_world (sample_env 5 [] []) ∅) in
  trace o
  = [EvClearInterval 7; EvSetRecordingTime 0;
     EvIdb (Put (sample_clip false)) true; EvIdb GetAll true;
     EvSetVideos [sample_clip false]; EvChunksReset;
     EvTrackStop "video"; EvTrackStop "audio"; EvSrcObjectCleared; EvSetStreamNull] /\
  result o = inr tt /\
  store (final o) !! "video-5" = Some (sample_clip false).
Proof. repeat split. Qed.

(** Four requests that fail with retryable errors: three delays, and the
    fourth error is the outcome. *)
Lemma retry_policy_witness :
  let o := uploadToCloudinary formatBytes_unscaled (BlobRef sample_blob) 0
             (sample_world (sample_env 5 [] [XhrError; XhrTimeout; XhrError; XhrTimeout]) ∅) in
  result o = inl (new_Error "Upload timeout. Please try again with a shorter video") /\
  sleeps (trace o) = [2000; 4000; 6000] /\
  List.length (sends (trace o)) = 4%nat.
Proof.
  destruct (retry_policy formatBytes_unscaled) as (_ & _ & _ & _ & _ & _ & Hfour).
  apply (Hfour (BlobRef sample_blob) _ (mkValidation true [])
               (new_Error "Network error during upload")
               (new_Error "Upload timeout. Please try again with a shorter video")
               (new_Error "Network error during upload")
               (new_Error "Upload timeout. Please try again with a shorter video"));
    try reflexivity.
  intros [|[|[|[|k]]]] _; reflexivity.
Defined.

(** Offline: the upload stops at the third check. *)
Lemma preconditions_in_order_witness :
  let w := sample_world (sample_env 5 [false] [sample_success]) ∅ in
  let o := uploadToCloudinary formatBytes_unscaled (BlobRef sample_blob) 0 w in
  o = mkOutcome [EvConfigCheck; EvValidate (BlobRef sample_blob); EvIsOnline false]
                (inl (new_Error OFFLINE)) (checked w) /\
  sends (trace o) = [] /\ sleeps (trace o) = [] /\
  xhr_sends (final o) = xhr_sends w.
Proof.
  apply (proj1 (proj2 (proj2 (preconditions_in_order formatBytes_unscaled
                                (BlobRef sample_blob) 0 _)))).
  - reflexivity.
  - exists (mkValidation true []). split; reflexivity.
  - reflexivity.
Defined.



(** A 500 response with body [null]: the upload ends with a TypeError. *)
Lemma null_error_body_throws_TypeError_witness :
  result (uploadToCloudinary formatBytes_unscaled (BlobRef sample_blob) 0
            (sample_world (sample_env 5 [] [XhrLoad 500 (Json JNull)]) ∅))
  = inl (mkExn KTypeError "Cannot read properties of null (reading 'error')").
Proof.
  apply (null_error_body_throws_TypeError formatBytes_unscaled (BlobRef sample_blob) 0 _
           (mkValidation true []) 500); reflexivity.
Defined.

(** The 400 response with the message of the host: the upload ends at
    once with that message. *)
Example bad_preset_fails_at_once :
  let o := uploadToCloudinary formatBytes_unscaled (BlobRef sample_blob) 0
             (sample_world (sample_env 5 [] [sample_rejection]) ∅) in
  result o = inl (new_Error "bad preset") /\
  sleeps (trace o) = [] /\
  sends (trace o) = [request sample_config (BlobRef sample_blob)].
Proof. repeat split. Qed.

(** A record that is deleted is not brought back by [updateVideo]. *)
Lemma updateVideo_absent_is_noop_witness :
  let w := sample_world (sample_env 5 [] []) {["video-5" := sample_clip false]} in
  let o1 := deleteVideo "video-5" w in
  let o2 := updateVideo "video-5" true (final o1) in
  store (final o1) !! "video-5" = None /\
  store (final o2) !! "video-5" = None /\
  store (final o2) = store (final o1).
Proof.
  apply (proj2 updateVideo_absent_is_noop "video-5"). reflexivity.
Defined.

Lemma sample_store_keyed flag : keyed {["video-5" := sample_clip flag]}.
Proof. intros k c [<- <-]%lookup_singleton_Some. reflexivity. Qed.

(** Marking the sample record as uploaded changes that flag only. *)
Lemma updateVideo_changes_only_uploaded_witness :
  let w := sample_world (sample_env 5 [] []) {["video-5" := sample_clip false]} in
  let o := updateVideo "video-5" true w in
  (exists video',
     store (final o) !! "video-5" = Some video' /\
     id video' = id (sample_clip false) /\ blob video' = blob (sample_clip false) /\
     createdAt video' = createdAt (sample_clip false) /\
     (result o = inr tt -> uploaded video' = true) /\
     (result o <> inr tt -> video' = sample_clip false)) /\
  (forall k, k <> "video-5" -> store (final o) !! k = store w !! k).
Proof.
  apply (updateVideo_changes_only_uploaded "video-5" true
           (sample_world (sample_env 5 [] []) {["video-5" := sample_clip false]})
           (sample_clip false)).
  - apply sample_store_keyed.
  - reflexivity.
Defined.



(** A second recording, saved at clock reading 6 beside the one of
    reading 5, is found under [video-6]; the first is still listed. *)
Lemma saveVideo_then_getVideos_witness :
  let w := sample_world (sample_env 6 [] []) {["video-5" := sample_clip true]} in
  let video := mkClip "video-6" sample_blob 6 false in
  let videos := (map_to_list (<["video-6" := video]> (store w))).*2 in
  result (saveVideo sample_blob w) = inr "video-6" /\
  List.find (has_id "video-6") videos = Some video /\
  In (sample_clip true) videos.
Proof.
  intros w video videos.
  pose proof (saveVideo_then_getVideos sample_blob w "video-6" videos
                (sample_store_keyed true) eq_refl eq_refl) as H.
  cbv zeta in H. destruct H as (_ & Hfind & _ & Hothers).
  split; [reflexivity|]. split; [exact Hfind|].
  apply (Hothers "video-5"); [discriminate|reflexivity].
Defined.

(** A deletion in an environment whose every storage request fails. *)
Lemma failed_call_changes_nothing_witness :
  let w := mkWorld (mkEnv sample_config (fun _ => 5) (fun _ => true)
                          (fun _ => XhrAbort) (fun _ => true))
                   {["video-5" := sample_clip false]} 0 0 0 0 in
  result (call (CallDeleteVideo "video-5") w) = inl storage_failure /\
  store (final (call (CallDeleteVideo "video-5") w)) = store w.
Proof.
  intros w. split; [reflexivity|].
  apply (proj2 (failed_call_changes_nothing (CallDeleteVideo "video-5") w
                  storage_failure eq_refl)).
Defined.

Lemma getVideos_lists_the_store_witness :
  let w := sample_world (sample_env 5 [] []) {["video-5" := sample_clip false]} in
  store (final (getVideos w)) = store w /\
  (forall c, In c [sample_clip false] <-> exists k, store w !! k = Some c) /\
  List.length [sample_clip false] = size (store w) /\
  (keyed (store w) -> NoDup (List.map id [sample_clip false])).
Proof.
  intros w. apply (getVideos_lists_the_store w [sample_clip false]).
  vm_compute. reflexivity.
Defined.

(** An upload that succeeds: the record keeps its id, blob and date. *)
Lemma uploadVideo_keeps_every_record_witness :
  let w := sample_world (sample_env 5 [] [sample_success])
                        {["video-5" := sample_clip false]} in
  let o := uploadVideo formatBytes_unscaled "video-5" w in
  exists c',
    store (final o) !! "video-5" = Some c' /\
    id c' = id (sample_clip false) /\ blob c' = blob (sample_clip false) /\
    createdAt c' = createdAt (sample_clip false) /\
    (uploaded c' = uploaded (sample_clip false) \/ uploaded c' = true) /\
    ("video-5" <> "video-5" -> c' = sample_clip false).
Proof.
  intros w o.
  apply (proj1 (uploadVideo_keeps_every_record formatBytes_unscaled "video-5" w
                  (sample_store_keyed false))
           "video-5" (sample_clip false)).
  reflexivity.
Defined.


Lemma retryable_in_any_case_witness :
  includes "Request TIMEOUT" "TIMEOUT" = true /\
  isRetryableError (new_Error "Request TIMEOUT") = true.
Proof.
  split; [reflexivity|].
  apply (retryable_in_any_case (new_Error "Request TIMEOUT") "TIMEOUT").
  - reflexivity.
  - right. right. left. reflexivity.
Defined.

(** A network error, a timeout, then a success. *)
Lemma upload_succeeds_on_third_request_witness :
  let w := sample_world (sample_env 5 [] [XhrError; XhrTimeout; sample_success]) ∅ in
  let o := uploadToCloudinary formatBytes_unscaled (BlobRef sample_blob) 0 w in
  exists r,
    result o = inr r /\ sleeps (trace o) = [2000; 4000] /\
    List.length (sends (trace o)) = 3%nat.
Proof.
  intros w o. eexists.
  apply (upload_succeeds_on_third_request formatBytes_unscaled (BlobRef sample_blob) w
           (mkValidation true [])
           (new_Error "Network error during upload")
           (new_Error "Upload timeout. Please try again with a shorter video"));
    try reflexivity.
  intros [|[|[|k]]] _; reflexivity.
Defined.

(** A network error, and the device offline at the check of the retry. *)
Lemma offline_during_retry_ends_the_upload_witness :
  let w := sample_world (sample_env 5 [true; false] [XhrError; sample_success]) ∅ in
  let o := uploadToCloudinary formatBytes_unscaled (BlobRef sample_blob) 0 w in
  result o = inl (new_Error OFFLINE) /\
  sleeps (trace o) = [RETRY_DELAY * (0 + 1)] /\
  sends (trace o) = [request (config (env w)) (BlobRef sample_blob)] /\
  isRetryableError (new_Error OFFLINE) = true.
Proof.
  intros w o.
  apply (offline_during_retry_ends_the_upload formatBytes_unscaled (BlobRef sample_blob)
           0 w (mkValidation true []) (new_Error "Network error during upload"));
    reflexivity.
Defined.

(** Status 201 with the body [null]. *)
Lemma ok_response_is_success_witness :
  200 <= 201 /\ 201 < 300 /\
  attempt (XhrLoad 201 (Json JNull)) = inl (nullish_read "null" "secure_url").
Proof.
  split; [lia|]. split; [lia|].
  apply (proj2 (proj2 (ok_response_is_success 201 ltac:(lia) ltac:(lia)))).
Defined.

(** An aborted request at retry count 2. *)
Lemma rejected_requests_witness :
  let w := sample_world (sample_env 5 [] [XhrAbort]) ∅ in
  uploadToCloudinary formatBytes_unscaled (BlobRef sample_blob) 2 w
  = mkOutcome (through_request (BlobRef sample_blob) w)
              (inl (new_Error "Upload cancelled")) (sent w).
Proof.
  intros w.
  apply (proj1 (rejected_requests formatBytes_unscaled (BlobRef sample_blob) 2 w
                  (mkValidation true []) eq_refl eq_refl eq_refl eq_refl)).
  reflexivity.
Defined.

(** An upload the host rejects with status 400: the store is as before. *)
Lemma uploadVideo_reports_failure_witness :
  let w := sample_world (sample_env 5 [] [sample_rejection])
                        {["video-5" := sample_clip false]} in
  store (final (uploadVideo formatBytes_unscaled "video-5" w)) = store w.
Proof.
  intros w.
  pose proof (uploadVideo_reports_failure formatBytes_unscaled "video-5" w
                (sample_store_keyed false) eq_refl eq_refl) as H.
  cbv zeta in H. destruct H as [_ H].
  edestruct (H (sample_clip false)) as [Hstore _];
    [reflexivity|vm_compute; reflexivity|exact Hstore].
Defined.

(** A recording of two empty data events. *)
Lemma empty_recording_is_kept_but_never_uploaded_witness :
  let recorder := mkRecorder (Some 7) [] ["video"; "audio"] true in
  let w := sample_world (sample_env 5 [] [sample_success]) ∅ in
  store (final (onstop recorder w)) !! "video-5"
  = Some (mkClip "video-5" (mkBlob 0 "video/webm") 5 false) /\
  result (uploadToCloudinary formatBytes_unscaled (BlobRef (mkBlob 0 "video/webm")) 0 w)
  = inl (new_Error EMPTY_FILE).
Proof.
  intros recorder w.
  pose proof (empty_recording_is_kept_but_never_uploaded formatBytes_unscaled
                [mkBlob 0 "video/webm"; mkBlob 0 "video/webm"] recorder w eq_refl) as H.
  cbv zeta in H. destruct H as (_ & Hstore & Hup & _).
  { intros data [<-|[<-|[]]]; reflexivity. }
  split; [exact (Hstore eq_refl)|]. exact (f_equal result (Hup 0 w eq_refl)).
Defined.
